(** * The notification store of clair: pgsql backend, Null backend and
      driver registry

    Shallow embedding of
    - [database/pgsql/notification.go]  (the PostgreSQL notification store),
    - [services/notifications/notifications.go] (the [Service] interface,
      its [Null] implementation and the driver registry),
    followed by the properties the specification states about them.

    Conventions.  A Go method on the database handle becomes a function
    that takes the current content of the [Vulnerability_Notification]
    table and returns the new content next to the Go results.  What a call
    reads from the outside world (the clock, the UUID generator, a failing
    connection, the order in which the engine yields qualifying rows) is
    gathered in an [Env] record, one per call.  Go's [(value, error)]
    results are pairs whose second component is [option error], [None]
    standing for [nil].  The metrics hook [observeQueryTime] has no effect
    on the store and is left out. *)

From Stdlib Require Import ZArith String List Lia.
From stdpp Require Import base option list strings gmap.
Import ListNotations.
Local Open Scope Z_scope.

(** ** Go scalars *)

(** Two's complement wrap-around of a 64 bit signed integer. *)
Definition wrap64 (z : Z) : Z := (z + 2 ^ 63) mod 2 ^ 64 - 2 ^ 63.

(** [time.Duration] is an [int64] count of nanoseconds. *)
Definition Duration : Type := Z.

(** Unary minus on a [time.Duration]. *)
Definition Duration_neg (d : Duration) : Duration := wrap64 (- d).

(** [time.Time]: an instant, counted in nanoseconds from the zero value
    [time.Time{}], which is therefore [0]. *)
Definition Time : Type := Z.
Definition Time_zero : Time := 0.
Definition Time_IsZero (t : Time) : bool := t =? Time_zero.
Definition Time_Add (t : Time) (d : Duration) : Time := t + d.

(** [int] and [int64] coincide on the 64 bit targets the project builds
    for; both conversions are written out where the source has them. *)
Definition int64_of_int (x : Z) : Z := wrap64 x.
Definition int_of_int64 (x : Z) : Z := wrap64 x.

(** Go's [error] values that occur in the two packages:
    [cerrors.ErrNotFound], [services.ErrBackendException] and the value
    built by [fmt.Errorf] in [Open], kept with its [%q] argument. *)
Inductive error : Type :=
| ErrNotFound
| ErrBackendException
| Errorf_unknown_Driver (pkg : string) (type : string).

(** A Go call either returns or panics with a message. *)
Inductive outcome (A : Type) : Type :=
| Returns (a : A)
| Panics (msg : string).
Arguments Returns {A} a.
Arguments Panics {A} msg.

(** ** Package services *)

Module services.

(** [services.Model]: the surrogate key. *)
Record Model : Type := { ID : Z }.

(** Modelled from the spec: the declaration of [services.Vulnerability]
    is not among the sources.  It carries the identity, the descriptive
    fields, the fix list and the list of layers introducing the
    vulnerability (sections 3, 4.3 and 4.4). *)
Record Vulnerability : Type := {
  Vulnerability_Model : Model;
  Vulnerability_Name : string;
  Namespace : string;
  Description : string;
  Link : string;
  Severity : string;
  FixedIn : list string;
  LayersIntroducingVulnerability : list string
}.

(** Modelled from the spec: the declaration of
    [services.VulnerabilityNotification] is not among the sources; the
    fields are the ones [scanNotification] assigns. *)
Record VulnerabilityNotification : Type := {
  VulnerabilityNotification_Model : Model;
  Name : string;
  Created : Time;
  Notified : Time;
  Deleted : Time;
  OldVulnerability : option Vulnerability;
  NewVulnerability : option Vulnerability
}.

(** The zero value [services.VulnerabilityNotification{}]. *)
Definition VulnerabilityNotification_zero : VulnerabilityNotification :=
  {| VulnerabilityNotification_Model := {| ID := 0 |};
     Name := EmptyString;
     Created := Time_zero;
     Notified := Time_zero;
     Deleted := Time_zero;
     OldVulnerability := None;
     NewVulnerability := None |}.

(** [&services.Vulnerability{Model: services.Model{id}}]: every other
    field keeps its zero value. *)
Definition Vulnerability_of_Model (m : Model) : Vulnerability :=
  {| Vulnerability_Model := m;
     Vulnerability_Name := EmptyString;
     Namespace := EmptyString;
     Description := EmptyString;
     Link := EmptyString;
     Severity := EmptyString;
     FixedIn := [];
     LayersIntroducingVulnerability := [] |}.

End services.

(** ** The database engine under the pgsql package *)

Module sql.

(** [sql.NullInt64]. *)
Record NullInt64 : Type := { Int64 : Z; Valid : bool }.

(** What the driver stores for a [sql.NullInt64] argument
    ([NullInt64.Value]): NULL unless [Valid]. *)
Definition NullInt64_Value (n : NullInt64) : option Z :=
  if Valid n then Some (Int64 n) else None.

(** [NullInt64.Scan]: NULL gives the zero struct. *)
Definition NullInt64_Scan (c : option Z) : NullInt64 :=
  match c with
  | Some v => {| Int64 := v; Valid := true |}
  | None => {| Int64 := 0; Valid := false |}
  end.

(** [zero.Time] of [github.com/guregu/null/zero]: a nullable time in which
    NULL and the zero time are the same thing. *)
Record zero_Time : Type := { zero_Time_Time : Time; zero_Time_Valid : bool }.

Definition zero_Time_Scan (c : option Time) : zero_Time :=
  match c with
  | Some t => {| zero_Time_Time := t; zero_Time_Valid := negb (Time_IsZero t) |}
  | None => {| zero_Time_Time := Time_zero; zero_Time_Valid := false |}
  end.

(** Errors of [database/sql]: [sql.ErrNoRows], and everything the driver
    reports (connectivity, constraint violation, timeout, wrong number of
    [Scan] destinations). *)
Inductive sql_error : Type :=
| ErrNoRows
| driver_error (msg : string).

(** One row of the [Vulnerability_Notification] table. *)
Record NotificationRow : Type := {
  id : Z;
  name : string;
  created_at : Time;
  notified_at : option Time;
  deleted_at : option Time;
  old_vulnerability_id : option Z;
  new_vulnerability_id : option Z
}.

(** The table, with the sequence that numbers its rows. *)
Record Store : Type := {
  rows : list NotificationRow;
  next_id : Z
}.

Definition Store_empty : Store := {| rows := []; next_id := 1 |}.

(** What one call takes from outside the store. *)
Record Env : Type := {
  Now : Time;                        (* time.Now() and CURRENT_TIMESTAMP *)
  uuid_New : string;                 (* uuid.New() *)
  fault : option string;             (* the statement fails in the driver *)
  rows_affected_fault : option string; (* Result.RowsAffected() fails *)
  locked : string -> bool;           (* names under a valid Lock *)
  pick : nat                         (* tie-break among qualifying rows *)
}.

(** The five statements of [notification.go], each with its arguments. *)
Inductive statement : Type :=
| insertNotification (uuid : string) (old new : NullInt64)
| updatedNotificationNotified (n : string)
| removeNotification (n : string)
| searchNotificationAvailable (before : Time)
| searchNotification (n : string).

(** The row a query hands to [Scan]: a deferred error, or the selected
    columns, any of which may be NULL, with the error, if any, that
    closing the rows reports once they have been scanned. *)
Inductive Row : Type :=
| Row_error (e : sql_error)
| Row5 (c_id : option Z) (c_name : option string)
       (c_created c_notified c_deleted : option Time)
       (close : option string)
| Row7 (c_id : option Z) (c_name : option string)
       (c_created c_notified c_deleted : option Time)
       (c_old c_new : option Z)
       (close : option string).

(** [sql.Result], as far as the package looks at it. *)
Record Result : Type := { affected_rows : Z }.

Definition RowsAffected (e : Env) (r : Result) : Z * option sql_error :=
  match rows_affected_fault e with
  | Some msg => (0, Some (driver_error msg))
  | None => (affected_rows r, None)
  end.

Definition has_name (n : string) (r : NotificationRow) : bool :=
  String.eqb (name r) n.

Definition is_null {A} (c : option A) : bool :=
  match c with None => true | Some _ => false end.

(** Modelled from the spec: the text of [searchNotificationAvailable] is
    not among the sources.  Section 4.2: the row is not held by a claim
    in flight, [Deleted] is absent, and [Notified] is absent or
    [Notified < now - renotifyInterval]; the argument [before] is that
    bound.  The source's comment on [GetAvailableNotification] reads the
    same: not locked, not deleted, and not notified or notified but timed
    out.  The Lock table is kept by another service; [held] tells which
    names are under a valid Lock when the query runs. *)
Definition available (held : string -> bool) (before : Time)
    (r : NotificationRow) : bool :=
  negb (held (name r)) &&
  is_null (deleted_at r) &&
  match notified_at r with
  | None => true
  | Some t => t <? before
  end.

(** Modelled from the spec: the text of [removeNotification] is not among
    the sources.  Section 4.1: the predicate for deletable excludes
    already-deleted rows. *)
Definition deletable (n : string) (r : NotificationRow) : bool :=
  has_name n r && is_null (deleted_at r).

Definition set_notified_at (t : Time) (r : NotificationRow) : NotificationRow :=
  {| id := id r; name := name r; created_at := created_at r;
     notified_at := Some t; deleted_at := deleted_at r;
     old_vulnerability_id := old_vulnerability_id r;
     new_vulnerability_id := new_vulnerability_id r |}.

Definition set_deleted_at (t : Time) (r : NotificationRow) : NotificationRow :=
  {| id := id r; name := name r; created_at := created_at r;
     notified_at := notified_at r; deleted_at := Some t;
     old_vulnerability_id := old_vulnerability_id r;
     new_vulnerability_id := new_vulnerability_id r |}.

(** [UPDATE ... SET ... WHERE p]: every row satisfying [p] is rewritten. *)
Definition update_where (p : NotificationRow -> bool)
    (f : NotificationRow -> NotificationRow) (l : list NotificationRow)
  : list NotificationRow :=
  List.map (fun r => if p r then f r else r) l.

Definition count_where (p : NotificationRow -> bool) (l : list NotificationRow) : Z :=
  Z.of_nat (List.length (List.filter p l)).

(** [LIMIT 1] over the qualifying rows; which one comes first is the
    engine's choice (section 4.2 leaves the tie-break open). *)
Definition limit_1 (e : Env) (l : list NotificationRow) : option NotificationRow :=
  List.nth_error l (Nat.modulo (pick e) (List.length l)).

(** Modelled from the spec: the texts of the five statements and the
    table's schema are not among the sources.  Section 4.1: the insert
    stores the generated name, [Created = now] and both timestamps absent,
    under a store-assigned [ID]; [Name] is unique (section 3), so a second
    row of the same name is a constraint violation; the notified mark sets
    [Notified = now] on the row of that name; the delete sets
    [Deleted = now] on the deletable row of that name; the lookup by name
    is exact and unfiltered.  Section 4.2: the availability query selects
    one qualifying row and changes nothing.  Every row of the table has
    an identifier and a name, and a failure of the driver is taken to
    strike when the statement is run, so the rows handed to [Scan] have
    both and close without error. *)
Definition run (e : Env) (q : statement) (st : Store)
  : Store * (sql_error + (Result * Row)) :=
  match fault e with
  | Some msg => (st, inl (driver_error msg))
  | None =>
    match q with
    | insertNotification uuid old new =>
      if List.existsb (has_name uuid) (rows st)
      then (st, inl (driver_error "unique constraint"))
      else
        let r := {| id := next_id st; name := uuid; created_at := Now e;
                    notified_at := None; deleted_at := None;
                    old_vulnerability_id := NullInt64_Value old;
                    new_vulnerability_id := NullInt64_Value new |} in
        ({| rows := rows st ++ [r]; next_id := next_id st + 1 |},
         inr ({| affected_rows := 1 |}, Row_error ErrNoRows))
    | updatedNotificationNotified n =>
      ({| rows := update_where (has_name n) (set_notified_at (Now e)) (rows st);
          next_id := next_id st |},
       inr ({| affected_rows := count_where (has_name n) (rows st) |},
            Row_error ErrNoRows))
    | removeNotification n =>
      ({| rows := update_where (deletable n) (set_deleted_at (Now e)) (rows st);
          next_id := next_id st |},
       inr ({| affected_rows := count_where (deletable n) (rows st) |},
            Row_error ErrNoRows))
    | searchNotificationAvailable before =>
      (st,
       inr ({| affected_rows := 0 |},
            match limit_1 e (List.filter (available (locked e) before)
                                         (rows st)) with
            | Some r => Row5 (Some (id r)) (Some (name r)) (Some (created_at r))
                             (notified_at r) (deleted_at r) None
            | None => Row_error ErrNoRows
            end))
    | searchNotification n =>
      (st,
       inr ({| affected_rows := 0 |},
            match List.find (has_name n) (rows st) with
            | Some r => Row7 (Some (id r)) (Some (name r)) (Some (created_at r))
                             (notified_at r) (deleted_at r)
                             (old_vulnerability_id r) (new_vulnerability_id r)
                             None
            | None => Row_error ErrNoRows
            end))
    end
  end.

(** [db.Exec(query, args...)]: the result, or the driver's error. *)
Definition Exec (e : Env) (q : statement) (st : Store)
  : Store * (Result + sql_error) :=
  match run e q st with
  | (st', inl err) => (st', inr err)
  | (st', inr (res, _)) => (st', inl res)
  end.

(** [db.QueryRow(query, args...)]: errors are deferred to [Scan]. *)
Definition QueryRow (e : Env) (q : statement) (st : Store) : Store * Row :=
  match run e q st with
  | (st', inl err) => (st', Row_error err)
  | (st', inr (_, row)) => (st', row)
  end.

End sql.

(** ** Package pgsql: notification.go *)

Module pgsql.
Import services sql.

(** Modelled from the spec: the helper [handleError] is not among the
    sources.  Section 7: [NotFound] when no row matches, and
    [BackendException] for any underlying persistence failure; [nil]
    stays [nil]. *)
Definition handleError (desc : string) (err : option sql_error) : option error :=
  match err with
  | None => None
  | Some ErrNoRows => Some ErrNotFound
  | Some (driver_error _) => Some ErrBackendException
  end.

(** The variables of [scanNotification] that [row.Scan] writes to: the
    named result [notification], whose [ID] and [Name] are destinations
    themselves, and the five locals. *)
Record scan_vars : Type := {
  var_notification : VulnerabilityNotification;
  var_created : zero_Time;
  var_notified : zero_Time;
  var_deleted : zero_Time;
  var_oldVulnerabilityNullableID : NullInt64;
  var_newVulnerabilityNullableID : NullInt64
}.

(** [&notification.ID] and [&notification.Name] as destinations. *)
Definition assign_ID (i : Z) (s : scan_vars) : scan_vars :=
  {| var_notification :=
       {| VulnerabilityNotification_Model := {| ID := i |};
          Name := Name (var_notification s);
          Created := Created (var_notification s);
          Notified := Notified (var_notification s);
          Deleted := Deleted (var_notification s);
          OldVulnerability := OldVulnerability (var_notification s);
          NewVulnerability := NewVulnerability (var_notification s) |};
     var_created := var_created s;
     var_notified := var_notified s;
     var_deleted := var_deleted s;
     var_oldVulnerabilityNullableID := var_oldVulnerabilityNullableID s;
     var_newVulnerabilityNullableID := var_newVulnerabilityNullableID s |}.

Definition assign_Name (n : string) (s : scan_vars) : scan_vars :=
  {| var_notification :=
       {| VulnerabilityNotification_Model :=
            VulnerabilityNotification_Model (var_notification s);
          Name := n;
          Created := Created (var_notification s);
          Notified := Notified (var_notification s);
          Deleted := Deleted (var_notification s);
          OldVulnerability := OldVulnerability (var_notification s);
          NewVulnerability := NewVulnerability (var_notification s) |};
     var_created := var_created s;
     var_notified := var_notified s;
     var_deleted := var_deleted s;
     var_oldVulnerabilityNullableID := var_oldVulnerabilityNullableID s;
     var_newVulnerabilityNullableID := var_newVulnerabilityNullableID s |}.

(** The three [zero.Time] locals, and the two [sql.NullInt64] locals. *)
Definition assign_times (c t d : option Time) (s : scan_vars) : scan_vars :=
  {| var_notification := var_notification s;
     var_created := zero_Time_Scan c;
     var_notified := zero_Time_Scan t;
     var_deleted := zero_Time_Scan d;
     var_oldVulnerabilityNullableID := var_oldVulnerabilityNullableID s;
     var_newVulnerabilityNullableID := var_newVulnerabilityNullableID s |}.

Definition assign_ids (o w : option Z) (s : scan_vars) : scan_vars :=
  {| var_notification := var_notification s;
     var_created := var_created s;
     var_notified := var_notified s;
     var_deleted := var_deleted s;
     var_oldVulnerabilityNullableID := NullInt64_Scan o;
     var_newVulnerabilityNullableID := NullInt64_Scan w |}.

(** [rows.Close()] after the scan: its error is the result of [Scan]. *)
Definition Close_error (close : option string) : option sql_error :=
  match close with
  | Some msg => Some (driver_error msg)
  | None => None
  end.

(** [row.Scan(dest...)] with five, respectively seven, destinations.  A
    deferred error or a wrong number of columns is reported before any
    destination is written.  Otherwise the destinations are written in
    order, an [int] or [string] destination refuses NULL and ends the
    scan there, leaving the earlier destinations written, and after the
    last destination the rows are closed. *)
Definition Scan5 (row : Row) (s : scan_vars) : scan_vars * option sql_error :=
  match row with
  | Row_error e => (s, Some e)
  | Row7 _ _ _ _ _ _ _ _ =>
    (s, Some (driver_error
                "sql: expected 7 destination arguments in Scan, not 5"))
  | Row5 c_id c_name c t d close =>
    match c_id with
    | None =>
      (s, Some (driver_error
                  "sql: Scan error on column index 0: converting NULL to int is unsupported"))
    | Some i =>
      match c_name with
      | None =>
        (assign_ID i s,
         Some (driver_error
                 "sql: Scan error on column index 1: converting NULL to string is unsupported"))
      | Some n =>
        (assign_times c t d (assign_Name n (assign_ID i s)), Close_error close)
      end
    end
  end.

Definition Scan7 (row : Row) (s : scan_vars) : scan_vars * option sql_error :=
  match row with
  | Row_error e => (s, Some e)
  | Row5 _ _ _ _ _ _ =>
    (s, Some (driver_error
                "sql: expected 5 destination arguments in Scan, not 7"))
  | Row7 c_id c_name c t d o w close =>
    match c_id with
    | None =>
      (s, Some (driver_error
                  "sql: Scan error on column index 0: converting NULL to int is unsupported"))
    | Some i =>
      match c_name with
      | None =>
        (assign_ID i s,
         Some (driver_error
                 "sql: Scan error on column index 1: converting NULL to string is unsupported"))
      | Some n =>
        (assign_ids o w (assign_times c t d (assign_Name n (assign_ID i s))),
         Close_error close)
      end
    end
  end.

(** [scanNotification].  The named result [notification] and the locals
    start as zero values.  Depending on whether [hasVulns] is true, the
    row contains a different number of columns.  On an error of [Scan]
    the result is returned as [Scan] left it; otherwise the timestamps
    are copied from the locals and, when [hasVulns], each valid
    reference becomes a vulnerability with only its [Model]. *)
Definition scanNotification (row : Row) (hasVulns : bool)
  : VulnerabilityNotification * option sql_error :=
  let vars :=
    {| var_notification := VulnerabilityNotification_zero;
       var_created := {| zero_Time_Time := Time_zero; zero_Time_Valid := false |};
       var_notified := {| zero_Time_Time := Time_zero; zero_Time_Valid := false |};
       var_deleted := {| zero_Time_Time := Time_zero; zero_Time_Valid := false |};
       var_oldVulnerabilityNullableID := {| Int64 := 0; Valid := false |};
       var_newVulnerabilityNullableID := {| Int64 := 0; Valid := false |} |} in
  let (vars, err) := if hasVulns then Scan7 row vars else Scan5 row vars in
  match err with
  | Some err => (var_notification vars, Some err)
  | None =>
    ({| VulnerabilityNotification_Model :=
          VulnerabilityNotification_Model (var_notification vars);
        Name := Name (var_notification vars);
        Created := zero_Time_Time (var_created vars);
        Notified := zero_Time_Time (var_notified vars);
        Deleted := zero_Time_Time (var_deleted vars);
        OldVulnerability :=
          if hasVulns && Valid (var_oldVulnerabilityNullableID vars)
          then Some (Vulnerability_of_Model
                       {| ID := int_of_int64
                                  (Int64 (var_oldVulnerabilityNullableID vars)) |})
          else OldVulnerability (var_notification vars);
        NewVulnerability :=
          if hasVulns && Valid (var_newVulnerabilityNullableID vars)
          then Some (Vulnerability_of_Model
                       {| ID := int_of_int64
                                  (Int64 (var_newVulnerabilityNullableID vars)) |})
          else NewVulnerability (var_notification vars) |},
     None)
  end.

(** [CreateNotification] from the vulnerability change. *)
Definition CreateNotification (e : Env) (oldVulnerability newVulnerability : Model)
    (st : Store) : Store * option error :=
  let oldVulnerabilityNullableID :=
    {| Int64 := int64_of_int (ID oldVulnerability);
       Valid := negb (ID oldVulnerability =? 0) |} in
  let newVulnerabilityNullableID :=
    {| Int64 := int64_of_int (ID newVulnerability);
       Valid := negb (ID newVulnerability =? 0) |} in
  match Exec e (insertNotification (uuid_New e) oldVulnerabilityNullableID
                                   newVulnerabilityNullableID) st with
  | (st', inr err) => (st', handleError "CreateNotification" (Some err))
  | (st', inl _) => (st', None)
  end.

(** [GetAvailableNotification]: one available notification; does not
    fill the new and old vulnerability. *)
Definition GetAvailableNotification (e : Env) (renotifyInterval : Duration)
    (st : Store) : Store * (VulnerabilityNotification * option error) :=
  let before := Time_Add (Now e) (Duration_neg renotifyInterval) in
  let (st', row) := QueryRow e (searchNotificationAvailable before) st in
  let (notification, err) := scanNotification row false in
  (st', (notification, handleError "searchNotificationAvailable" err)).

Definition GetNotification (e : Env) (n : string) (st : Store)
  : Store * (VulnerabilityNotification * option error) :=
  let (st', row) := QueryRow e (searchNotification n) st in
  match scanNotification row true with
  | (notification, Some err) =>
    (st', (notification, handleError "searchNotification" (Some err)))
  | (notification, None) => (st', (notification, None))
  end.

Definition SetNotificationNotified (e : Env) (n : string) (st : Store)
  : Store * option error :=
  match Exec e (updatedNotificationNotified n) st with
  | (st', inr err) => (st', handleError "updatedNotificationNotified" (Some err))
  | (st', inl _) => (st', None)
  end.

Definition DeleteNotification (e : Env) (n : string) (st : Store)
  : Store * option error :=
  match Exec e (removeNotification n) st with
  | (st', inr err) => (st', handleError "removeNotification" (Some err))
  | (st', inl result) =>
    match RowsAffected e result with
    | (_, Some err) =>
      (st', handleError "removeNotification.RowsAffected()" (Some err))
    | (affected, None) =>
      if affected <=? 0 then (st', Some ErrNotFound) else (st', None)
    end
  end.

(** *** Callers of the store, interleaved

    Any number of workers call the five operations; the engine serialises
    the statements, so a run of the system is a list of calls, each with
    the caller's identity and what the call reads from outside. *)

Inductive Call : Type :=
| call_CreateNotification (oldVulnerability newVulnerability : Model)
| call_GetAvailableNotification (renotifyInterval : Duration)
| call_GetNotification (n : string)
| call_SetNotificationNotified (n : string)
| call_DeleteNotification (n : string).

Record Event : Type := {
  caller : nat;
  env : Env;
  call : Call
}.

Definition Reply : Type := (VulnerabilityNotification * option error)%type.

Definition step (ev : Event) (st : Store) : Store * Reply :=
  match call ev with
  | call_CreateNotification o w =>
    let (st', err) := CreateNotification (env ev) o w st in
    (st', (VulnerabilityNotification_zero, err))
  | call_GetAvailableNotification d => GetAvailableNotification (env ev) d st
  | call_GetNotification n => GetNotification (env ev) n st
  | call_SetNotificationNotified n =>
    let (st', err) := SetNotificationNotified (env ev) n st in
    (st', (VulnerabilityNotification_zero, err))
  | call_DeleteNotification n =>
    let (st', err) := DeleteNotification (env ev) n st in
    (st', (VulnerabilityNotification_zero, err))
  end.

(** The store after a list of calls, and the replies in order. *)
Fixpoint steps (evs : list Event) (st : Store) : Store * list Reply :=
  match evs with
  | [] => (st, [])
  | ev :: evs' =>
    let (st1, r) := step ev st in
    let (st2, rs) := steps evs' st1 in
    (st2, r :: rs)
  end.

End pgsql.

(** ** Package notifications: the Service interface, Null, the registry *)

Module notifications.
Import services.

(** Modelled from the spec: [config.RegistrableComponentConfig] is not
    among the sources; [Open] reads its [Type] field, the rest is the
    backend's own options. *)
Record RegistrableComponentConfig : Type := {
  Type_ : string;
  Options : list (string * string)
}.

(** [type Service interface]: [services.Base] ([Ping], [Close]) and the
    five notification operations, over the implementation's state. *)
Class Service (S : Type) : Type := {
  Ping : S -> bool;
  Close : S -> S;
  GetAvailableNotification :
    sql.Env -> Duration -> S -> S * (VulnerabilityNotification * option error);
  GetNotification :
    sql.Env -> string -> S -> S * (VulnerabilityNotification * option error);
  SetNotificationNotified : sql.Env -> string -> S -> S * option error;
  DeleteNotification : sql.Env -> string -> S -> S * option error;
  CreateNotification : sql.Env -> Model -> Model -> S -> S * option error
}.

(** [type Null struct {}]. *)
Inductive Null : Type := Null_value.

Definition Null_Ping (n : Null) : bool := true.

Definition Null_Close (n : Null) : Null := n.

Definition Null_GetAvailableNotification (e : sql.Env)
    (renotifyInterval : Duration) (n : Null)
  : Null * (VulnerabilityNotification * option error) :=
  (n, (VulnerabilityNotification_zero, Some ErrBackendException)).

Definition Null_GetNotification (e : sql.Env) (name : string) (n : Null)
  : Null * (VulnerabilityNotification * option error) :=
  (n, (VulnerabilityNotification_zero, Some ErrBackendException)).

Definition Null_SetNotificationNotified (e : sql.Env) (name : string) (n : Null)
  : Null * option error :=
  (n, Some ErrBackendException).

Definition Null_DeleteNotification (e : sql.Env) (name : string) (n : Null)
  : Null * option error :=
  (n, Some ErrBackendException).

(** [CreateNotification] reads and discards the notification. *)
Definition Null_CreateNotification (e : sql.Env)
    (oldVulnerability newVulnerability : Model) (n : Null)
  : Null * option error :=
  (n, None).

#[global] Instance Null_Service : Service Null := {
  Ping := Null_Ping;
  Close := Null_Close;
  GetAvailableNotification := Null_GetAvailableNotification;
  GetNotification := Null_GetNotification;
  SetNotificationNotified := Null_SetNotificationNotified;
  DeleteNotification := Null_DeleteNotification;
  CreateNotification := Null_CreateNotification
}.

Section Registry.

(** The values of interface type [Service] that drivers build. *)
Context {ServiceValue : Type}.

(** [type Driver func(cfg) (Service, error)]. *)
Definition Driver : Type :=
  RegistrableComponentConfig -> option ServiceValue * option error.

(** [Register] makes a Service constructor available by the provided
    name.  If it is called twice with the same name or if the constructor
    is nil, it panics.  The package variable [notificationDrivers] is
    passed in and returned; a nil [Driver] is [None]. *)
Definition Register (name : string) (driver : option Driver)
    (notificationDrivers : gmap string Driver)
  : outcome (gmap string Driver) :=
  match driver with
  | None => Panics "notifications: could not register nil Driver"
  | Some d =>
    match notificationDrivers !! name with
    | Some _ =>
      Panics ("notifications: could not register duplicate Driver: " +:+ name)
    | None => Returns (<[name := d]> notificationDrivers)
    end
  end.

(** [Open] opens a Datastore specified by a configuration. *)
Definition Open (cfg : RegistrableComponentConfig)
    (notificationDrivers : gmap string Driver)
  : outcome (option ServiceValue * option error) :=
  match notificationDrivers !! Type_ cfg with
  | None => Returns (None, Some (Errorf_unknown_Driver "notifications" (Type_ cfg)))
  | Some driver => Returns (driver cfg)
  end.

End Registry.

End notifications.

(** ** Vocabulary of the properties *)

Import services sql.

(** A call during which neither the statement nor [RowsAffected] fails in
    the driver. *)
Definition healthy (e : Env) : Prop :=
  fault e = None ∧ rows_affected_fault e = None.

(** The same call with another tie-break. *)
Definition with_pick (k : nat) (e : Env) : Env :=
  {| Now := Now e; uuid_New := uuid_New e; fault := fault e;
     rows_affected_fault := rows_affected_fault e; locked := locked e;
     pick := k |}.

(** A [time.Duration] whose negation does not overflow. *)
Definition negatable (d : Duration) : Prop := - 2 ^ 63 < d < 2 ^ 63.

(** A value of Go's [int] (64 bits). *)
Definition is_int (x : Z) : Prop := - 2 ^ 63 <= x < 2 ^ 63.

(** The row qualifies for the call [e]: no valid Lock is held on its
    name, [Deleted] is absent, and [Notified] is absent or older than now
    minus the interval. *)
Definition qualifies (e : Env) (renotifyInterval : Duration)
    (r : NotificationRow) : Prop :=
  locked e (name r) = false ∧
  deleted_at r = None ∧
  (notified_at r = None ∨
   ∃ t, notified_at r = Some t ∧ t < Now e - renotifyInterval).

(** A nullable timestamp as the [time.Time] the notification carries. *)
Definition time_of_column (c : option Time) : Time :=
  match c with Some t => t | None => Time_zero end.

(** A nullable reference as the pointer the notification carries: nil, or
    a vulnerability with nothing but its [Model]. *)
Definition vulnerability_of_column (c : option Z) : option Vulnerability :=
  match c with
  | Some v => Some (Vulnerability_of_Model {| ID := int_of_int64 v |})
  | None => None
  end.

(** The notification with the scalar fields of a row and no reference. *)
Definition scalars_of_row (r : NotificationRow) : VulnerabilityNotification :=
  {| VulnerabilityNotification_Model := {| ID := id r |};
     Name := name r;
     Created := created_at r;
     Notified := time_of_column (notified_at r);
     Deleted := time_of_column (deleted_at r);
     OldVulnerability := None;
     NewVulnerability := None |}.

(** The notification with the scalar fields and the two references. *)
Definition notification_of_row (r : NotificationRow) : VulnerabilityNotification :=
  {| VulnerabilityNotification_Model := {| ID := id r |};
     Name := name r;
     Created := created_at r;
     Notified := time_of_column (notified_at r);
     Deleted := time_of_column (deleted_at r);
     OldVulnerability := vulnerability_of_column (old_vulnerability_id r);
     NewVulnerability := vulnerability_of_column (new_vulnerability_id r) |}.

(** A reply that hands the notification named [n] to its caller. *)
Definition hands_out (n : string) (reply : pgsql.Reply) : Prop :=
  snd reply = None ∧ Name (fst reply) = n.

(** The names of the table are pairwise distinct (section 3). *)
Definition unique_names (st : Store) : Prop :=
  List.NoDup (List.map name (rows st)).

(** The row the insert statement builds. *)
Definition inserted_row (e : Env) (st : Store) (old new : Model) : NotificationRow :=
  {| id := next_id st; name := uuid_New e; created_at := Now e;
     notified_at := None; deleted_at := None;
     old_vulnerability_id := if ID old =? 0 then None else Some (int64_of_int (ID old));
     new_vulnerability_id := if ID new =? 0 then None else Some (int64_of_int (ID new)) |}.

(** Sample data.  A call at instant [t] that draws the UUID [u], meets
    no failure and sees no Lock. *)
Definition env_at (t : Time) (u : string) : Env :=
  {| Now := t; uuid_New := u; fault := None;
     rows_affected_fault := None; locked := fun _ => false; pick := 0 |}.

(** A call at instant [t] that draws no UUID. *)
Definition clock (t : Time) : Env := env_at t EmptyString.

(** A call at instant [t] while a valid Lock is held on the name [n]. *)
Definition env_holding (t : Time) (n : string) : Env :=
  {| Now := t; uuid_New := EmptyString; fault := None;
     rows_affected_fault := None; locked := String.eqb n; pick := 0 |}.

(** A table holding one fresh notification, named [a]. *)
Definition row_a : NotificationRow :=
  {| id := 1; name := "a"; created_at := 100;
     notified_at := None; deleted_at := None;
     old_vulnerability_id := None; new_vulnerability_id := Some 7 |}.

Definition store_a : Store := {| rows := [row_a]; next_id := 2 |}.

(** The lease the notified mark gives: the table has a row of that name,
    and every row of that name was marked at instant [t] or later. *)
Definition leased (t : Time) (n : string) (st : Store) : Prop :=
  (∃ r, In r (rows st) ∧ name r = n) ∧
  ∀ r, In r (rows st) → name r = n →
       ∃ t', notified_at r = Some t' ∧ t <= t'.

(** Worker [who] polls for an available notification at instant [t]. *)
Definition poll (who : nat) (t : Time) (d : Duration) : pgsql.Event :=
  {| pgsql.caller := who; pgsql.env := clock t;
     pgsql.call := pgsql.call_GetAvailableNotification d |}.

(** A driver that builds the [Null] service. *)
Definition null_driver : @notifications.Driver notifications.Null :=
  fun _ => (Some notifications.Null_value, None).

(** ** Package vulnerabilities: the driver registry *)

Module vulnerabilities.

Section Registry.

(** The values of interface type [namespaces.Service] handed to a driver,
    and the values of interface type [Service] that drivers build. *)
Context {NamespacesService ServiceValue : Type}.

(** [type Driver func(cfg, names) (Service, error)]. *)
Definition Driver : Type :=
  notifications.RegistrableComponentConfig -> NamespacesService ->
  option ServiceValue * option error.

(** [Register] makes a Vulnerability constructor available by the
    provided name.  If it is called twice with the same name or if the
    constructor is nil, it panics.  The package variable [vulnzDrivers]
    is passed in and returned; a nil [Driver] is [None]. *)
Definition Register (name : string) (driver : option Driver)
    (vulnzDrivers : gmap string Driver) : outcome (gmap string Driver) :=
  match driver with
  | None => Panics "vulnerabilities: could not register nil Driver"
  | Some d =>
    match vulnzDrivers !! name with
    | Some _ =>
      Panics ("vulnerabilities: could not register duplicate Driver: " +:+ name)
    | None => Returns (<[name := d]> vulnzDrivers)
    end
  end.

(** [Open] opens a Datastore specified by a configuration. *)
Definition Open (cfg : notifications.RegistrableComponentConfig)
    (names : NamespacesService) (vulnzDrivers : gmap string Driver)
  : outcome (option ServiceValue * option error) :=
  match vulnzDrivers !! notifications.Type_ cfg with
  | None =>
    Returns (None, Some (Errorf_unknown_Driver "vulnerabilities"
                           (notifications.Type_ cfg)))
  | Some driver => Returns (driver cfg names)
  end.

End Registry.

End vulnerabilities.

(** ** Vocabulary of the further properties *)

(** Several packages register their driver one after the other (each from
    its [init]); the first panic ends the program. *)
Fixpoint Register_each {ServiceValue : Type}
    (l : list (string * option (@notifications.Driver ServiceValue)))
    (notificationDrivers : gmap string (@notifications.Driver ServiceValue))
  : outcome (gmap string (@notifications.Driver ServiceValue)) :=
  match l with
  | [] => Returns notificationDrivers
  | (n, d) :: l' =>
    match notifications.Register n d notificationDrivers with
    | Returns m => Register_each l' m
    | Panics msg => Panics msg
    end
  end.

(** What a notification keeps through the calls: its identity, its
    creation time and its references; a deletion time once it has one;
    and the fact of having been notified. *)
Definition evolves (r r' : NotificationRow) : Prop :=
  id r' = id r ∧ name r' = name r ∧ created_at r' = created_at r ∧
  old_vulnerability_id r' = old_vulnerability_id r ∧
  new_vulnerability_id r' = new_vulnerability_id r ∧
  (∀ t, deleted_at r = Some t → deleted_at r' = Some t) ∧
  (notified_at r ≠ None → notified_at r' ≠ None).

(** The name is in the table and every row that bears it is deleted. *)
Definition retired (n : string) (st : Store) : Prop :=
  (∃ r, In r (rows st) ∧ name r = n) ∧
  ∀ r, In r (rows st) → name r = n → deleted_at r ≠ None.

(** The call neither marks nor deletes the name [n]. *)
Definition idle_on (n : string) (ev : pgsql.Event) : Prop :=
  pgsql.call ev ≠ pgsql.call_SetNotificationNotified n ∧
  pgsql.call ev ≠ pgsql.call_DeleteNotification n.

(** The identifiers of the table are pairwise distinct and were all
    drawn from the sequence. *)
Definition well_numbered (st : Store) : Prop :=
  List.NoDup (List.map id (rows st)) ∧
  ∀ r, In r (rows st) → id r < next_id st.

(** The clock readings of the calls do not run backwards from [t]. *)
Fixpoint clock_from (t : Time) (evs : list pgsql.Event) : Prop :=
  match evs with
  | [] => True
  | ev :: evs' => t <= Now (pgsql.env ev) ∧ clock_from (Now (pgsql.env ev)) evs'
  end.

(** No mark of the table lies after [t]. *)
Definition marks_until (t : Time) (st : Store) : Prop :=
  ∀ r t', In r (rows st) → notified_at r = Some t' → t' <= t.

(** Sample data: a driver of the vulnerabilities package, and calls that
    mark, delete and look up. *)
Definition vulnz_driver : @vulnerabilities.Driver unit notifications.Null :=
  fun _ _ => (Some notifications.Null_value, None).

Definition mark (who : nat) (t : Time) (n : string) : pgsql.Event :=
  {| pgsql.caller := who; pgsql.env := clock t;
     pgsql.call := pgsql.call_SetNotificationNotified n |}.

Definition erase (who : nat) (t : Time) (n : string) : pgsql.Event :=
  {| pgsql.caller := who; pgsql.env := clock t;
     pgsql.call := pgsql.call_DeleteNotification n |}.

Definition create (who : nat) (t : Time) (u : string) (old new : Z) : pgsql.Event :=
  {| pgsql.caller := who; pgsql.env := env_at t u;
     pgsql.call := pgsql.call_CreateNotification {| ID := old |} {| ID := new |} |}.

(** ** Facts about the scalars and the engine *)

Lemma wrap64_small (z : Z) : - 2 ^ 63 <= z < 2 ^ 63 → wrap64 z = z.
Proof.
  intros Hz. unfold wrap64.
  rewrite Z.mod_small by lia. lia.
Qed.

Lemma before_exact (now : Time) (d : Duration) :
  negatable d → Time_Add now (Duration_neg d) = now - d.
Proof.
  intros Hd. unfold Time_Add, Duration_neg, negatable in *.
  rewrite wrap64_small by lia. lia.
Qed.

Lemma has_name_true (n : string) (r : NotificationRow) :
  has_name n r = true ↔ name r = n.
Proof. unfold has_name. apply String.eqb_eq. Qed.

Lemma has_name_false (n : string) (r : NotificationRow) :
  has_name n r = false ↔ name r ≠ n.
Proof. unfold has_name. apply String.eqb_neq. Qed.

Lemma is_null_true {A} (c : option A) : is_null c = true ↔ c = None.
Proof. destruct c; simpl; split; congruence. Qed.

Lemma available_qualifies (e : Env) (d : Duration) (r : NotificationRow) :
  negatable d →
  available (locked e) (Time_Add (Now e) (Duration_neg d)) r = true ↔
  qualifies e d r.
Proof.
  intros Hd. rewrite before_exact by exact Hd.
  unfold available, qualifies.
  rewrite !andb_true_iff, negb_true_iff, is_null_true.
  destruct (notified_at r) as [t|].
  - rewrite Z.ltb_lt. split.
    + intros [[Hfree Hdel] Hlt]. split; [exact Hfree|].
      split; [exact Hdel|]. right. exists t. auto.
    + intros [Hfree [Hdel [Habs | [t' [Ht' Hlt]]]]]; [discriminate|].
      injection Ht' as <-. auto.
  - split.
    + intros [[Hfree Hdel] _]. auto.
    + intros [Hfree [Hdel _]]. auto.
Qed.

Lemma limit_1_None (e : Env) (l : list NotificationRow) :
  limit_1 e l = None ↔ l = [].
Proof.
  unfold limit_1. split.
  - intros Hnone. apply nth_error_None in Hnone.
    destruct l as [|r l']; [reflexivity|].
    assert (Hlt : (pick e mod List.length (r :: l') < List.length (r :: l'))%nat)
      by (apply Nat.mod_upper_bound; simpl; lia).
    lia.
  - intros ->. destruct (pick e mod List.length (@nil NotificationRow))%nat; reflexivity.
Qed.

Lemma limit_1_In (e : Env) (l : list NotificationRow) (r : NotificationRow) :
  limit_1 e l = Some r → In r l.
Proof. unfold limit_1. apply nth_error_In. Qed.

Lemma limit_1_chosen (e : Env) (l : list NotificationRow) (r : NotificationRow) :
  In r l → ∃ k, limit_1 (with_pick k e) l = Some r.
Proof.
  intros Hin. apply In_nth_error in Hin as [k Hk].
  exists k. unfold limit_1. simpl.
  assert (Hlt : (k < List.length l)%nat)
    by (apply nth_error_Some; congruence).
  rewrite Nat.mod_small by exact Hlt. exact Hk.
Qed.

(** ** GetAvailableNotification *)

(** What the call computes when the driver does not fail: the store is
    handed back, and the reply is read off the row the engine picks among
    the available ones. *)
Lemma GetAvailableNotification_healthy (e : Env) (d : Duration) (st : Store) :
  fault e = None →
  pgsql.GetAvailableNotification e d st =
  (st,
   match limit_1 e (List.filter (available (locked e) (Time_Add (Now e) (Duration_neg d)))
                                (rows st)) with
   | Some r => (scalars_of_row r, None)
   | None => (VulnerabilityNotification_zero, Some ErrNotFound)
   end).
Proof.
  intros Hf.
  unfold pgsql.GetAvailableNotification, QueryRow, run. rewrite Hf.
  destruct (limit_1 e _) as [r|]; simpl.
  - unfold scalars_of_row.
    destruct (notified_at r), (deleted_at r); reflexivity.
  - reflexivity.
Qed.

(** A failing driver surfaces as [BackendException]. *)
Lemma GetAvailableNotification_fault (e : Env) (d : Duration) (st : Store)
    (msg : string) :
  fault e = Some msg →
  pgsql.GetAvailableNotification e d st =
  (st, (VulnerabilityNotification_zero, Some ErrBackendException)).
Proof.
  intros Hf.
  unfold pgsql.GetAvailableNotification, QueryRow, run. rewrite Hf.
  reflexivity.
Qed.

(** Whatever the call hands out is a qualifying row of the table. *)
Lemma GetAvailableNotification_sound (e : Env) (d : Duration) (st : Store)
    (v : VulnerabilityNotification) :
  fault e = None → negatable d →
  snd (pgsql.GetAvailableNotification e d st) = (v, None) →
  ∃ r, In r (rows st) ∧ qualifies e d r ∧ v = scalars_of_row r.
Proof.
  intros Hf Hd. rewrite GetAvailableNotification_healthy by exact Hf. simpl.
  destruct (limit_1 e _) as [r|] eqn:Hl; [|discriminate].
  intros [= <-]. apply limit_1_In in Hl.
  apply filter_In in Hl as [Hin Hav].
  exists r. split; [exact Hin|]. split; [|reflexivity].
  apply available_qualifies; assumption.
Qed.

(** With no qualifying row the call fails with [NotFound]. *)
Lemma GetAvailableNotification_empty (e : Env) (d : Duration) (st : Store) :
  fault e = None → negatable d →
  (∀ r, In r (rows st) → ¬ qualifies e d r) →
  snd (pgsql.GetAvailableNotification e d st) =
  (VulnerabilityNotification_zero, Some ErrNotFound).
Proof.
  intros Hf Hd Hnone. rewrite GetAvailableNotification_healthy by exact Hf. simpl.
  destruct (limit_1 e _) as [r|] eqn:Hl; [|reflexivity].
  apply limit_1_In in Hl. apply filter_In in Hl as [Hin Hav].
  exfalso. apply (Hnone r Hin). apply available_qualifies; assumption.
Qed.

(** With a qualifying row the call succeeds, whatever the tie-break. *)
Lemma GetAvailableNotification_some (e : Env) (d : Duration) (st : Store)
    (r : NotificationRow) :
  fault e = None → negatable d →
  In r (rows st) → qualifies e d r →
  ∃ v, snd (pgsql.GetAvailableNotification e d st) = (v, None).
Proof.
  intros Hf Hd Hin Hq. rewrite GetAvailableNotification_healthy by exact Hf. simpl.
  destruct (limit_1 e _) as [r'|] eqn:Hl; [eauto|].
  apply limit_1_None in Hl.
  assert (Hin' : In r (List.filter (available (locked e) (Time_Add (Now e) (Duration_neg d)))
                                   (rows st))).
  { apply filter_In. split; [exact Hin|]. apply available_qualifies; assumption. }
  rewrite Hl in Hin'. destruct Hin'.
Qed.

(** Every qualifying row is handed out under some tie-break. *)
Lemma GetAvailableNotification_complete (e : Env) (d : Duration) (st : Store)
    (r : NotificationRow) :
  fault e = None → negatable d →
  In r (rows st) → qualifies e d r →
  ∃ k, snd (pgsql.GetAvailableNotification (with_pick k e) d st) =
       (scalars_of_row r, None).
Proof.
  intros Hf Hd Hin Hq.
  assert (Hin' : In r (List.filter (available (locked e) (Time_Add (Now e) (Duration_neg d)))
                                   (rows st))).
  { apply filter_In. split; [exact Hin|]. apply available_qualifies; assumption. }
  destruct (limit_1_chosen e _ r Hin') as [k Hk].
  exists k. rewrite GetAvailableNotification_healthy by exact Hf. simpl.
  simpl in Hk. unfold limit_1 in *. simpl in *. rewrite Hk. reflexivity.
Qed.

(** When every qualifying row bears the name [n], that name is handed
    out, whatever the tie-break. *)
Lemma GetAvailableNotification_only (e : Env) (d : Duration) (st : Store)
    (r : NotificationRow) (n : string) :
  fault e = None → negatable d →
  In r (rows st) → qualifies e d r →
  (∀ r', In r' (rows st) → qualifies e d r' → name r' = n) →
  hands_out n (snd (pgsql.GetAvailableNotification e d st)).
Proof.
  intros Hf Hd Hin Hq Hall.
  destruct (GetAvailableNotification_some e d st r Hf Hd Hin Hq) as [v Hv].
  destruct (GetAvailableNotification_sound e d st v Hf Hd Hv) as [r' [Hin' [Hq' ->]]].
  unfold hands_out. rewrite Hv. simpl. split; [reflexivity|].
  apply Hall; assumption.
Qed.

(** ** SetNotificationNotified *)

Lemma In_update_where (p : NotificationRow → bool)
    (f : NotificationRow → NotificationRow) (l : list NotificationRow)
    (r' : NotificationRow) :
  In r' (update_where p f l) ↔
  ∃ r, In r l ∧ r' = if p r then f r else r.
Proof.
  unfold update_where. rewrite in_map_iff.
  split; intros [r [H1 H2]]; exists r; split; auto.
Qed.

Lemma SetNotificationNotified_healthy (e : Env) (n : string) (st : Store) :
  fault e = None →
  pgsql.SetNotificationNotified e n st =
  ({| rows := update_where (has_name n) (set_notified_at (Now e)) (rows st);
      next_id := next_id st |}, None).
Proof.
  intros Hf. unfold pgsql.SetNotificationNotified, Exec, run.
  rewrite Hf. reflexivity.
Qed.

Lemma SetNotificationNotified_fault (e : Env) (n : string) (st : Store)
    (msg : string) :
  fault e = Some msg →
  pgsql.SetNotificationNotified e n st = (st, Some ErrBackendException).
Proof.
  intros Hf. unfold pgsql.SetNotificationNotified, Exec, run.
  rewrite Hf. reflexivity.
Qed.

(** After the mark, every row of that name carries the instant of the
    mark; the other rows are the ones of before. *)
Lemma marked_rows (e : Env) (n : string) (st : Store) (r' : NotificationRow) :
  fault e = None →
  In r' (rows (fst (pgsql.SetNotificationNotified e n st))) ↔
  ∃ r, In r (rows st) ∧
       r' = if has_name n r then set_notified_at (Now e) r else r.
Proof.
  intros Hf. rewrite SetNotificationNotified_healthy by exact Hf. simpl.
  apply In_update_where.
Qed.

Lemma marked_named (e : Env) (n : string) (st : Store) (r' : NotificationRow) :
  fault e = None →
  In r' (rows (fst (pgsql.SetNotificationNotified e n st))) →
  name r' = n → notified_at r' = Some (Now e).
Proof.
  intros Hf Hin Hn. apply marked_rows in Hin as [r [_ ->]]; [|exact Hf].
  destruct (has_name n r) eqn:Hp; [reflexivity|].
  apply has_name_false in Hp. contradiction.
Qed.

(** Inside the window the marked name is not handed out. *)
Lemma marked_withheld (e1 e2 : Env) (d : Duration) (n : string) (st : Store) :
  fault e1 = None → fault e2 = None → negatable d →
  Now e2 - Now e1 <= d →
  ¬ hands_out n (snd (pgsql.GetAvailableNotification e2 d
                        (fst (pgsql.SetNotificationNotified e1 n st)))).
Proof.
  intros Hf1 Hf2 Hd Hel [Herr Hname].
  destruct (snd (pgsql.GetAvailableNotification e2 d _)) as [v err] eqn:Hget.
  simpl in Herr, Hname. subst err.
  apply GetAvailableNotification_sound in Hget as [r [Hin [Hq ->]]]; try assumption.
  simpl in Hname.
  pose proof (marked_named e1 n st r Hf1 Hin Hname) as Hmark.
  destruct Hq as (_ & _ & [Habs | [t [Ht Hlt]]]); [congruence|].
  rewrite Hmark in Ht. injection Ht as <-. lia.
Qed.

(** Past the window a live row of the marked name qualifies again. *)
Lemma marked_qualifies_again (e1 e2 : Env) (d : Duration) (st : Store)
    (r : NotificationRow) :
  fault e1 = None → Now e2 - Now e1 > d →
  In r (rows st) → deleted_at r = None → locked e2 (name r) = false →
  In (set_notified_at (Now e1) r)
     (rows (fst (pgsql.SetNotificationNotified e1 (name r) st))) ∧
  qualifies e2 d (set_notified_at (Now e1) r).
Proof.
  intros Hf1 Hel Hin Hdel Hfree. split.
  - apply marked_rows; [exact Hf1|]. exists r. split; [exact Hin|].
    assert (Hp : has_name (name r) r = true) by (apply has_name_true; reflexivity).
    rewrite Hp. reflexivity.
  - split; [exact Hfree|]. split; [exact Hdel|].
    right. exists (Now e1). simpl. split; [reflexivity|lia].
Qed.

(** C1, as the code has it.  A notification qualifies for
    [GetAvailableNotification] exactly when no valid Lock is held on its
    name, [Deleted] is absent and [Notified] is absent or older than now
    minus the interval: what the call hands out is a qualifying row, every
    qualifying row is handed out under some tie-break, and with no
    qualifying row the call fails with [NotFound].  After a successful
    [SetNotificationNotified] of a name, that name is not handed out while
    the time elapsed since the mark is at most the interval; once it
    exceeds the interval a live, unlocked row of that name qualifies
    again, so the call succeeds, hands that name out under some tie-break,
    and hands it out under every tie-break when no row of another name
    qualifies. *)
Theorem renotify_window (e1 e2 : Env) (d : Duration) (st0 st : Store) (n : string) :
  fault e1 = None → fault e2 = None → negatable d →
  (∀ v, snd (pgsql.GetAvailableNotification e2 d st0) = (v, None) →
        ∃ r, In r (rows st0) ∧ qualifies e2 d r ∧ v = scalars_of_row r) ∧
  (∀ r, In r (rows st0) → qualifies e2 d r →
        ∃ k, snd (pgsql.GetAvailableNotification (with_pick k e2) d st0) =
             (scalars_of_row r, None)) ∧
  ((∀ r, In r (rows st0) → ¬ qualifies e2 d r) →
   snd (pgsql.GetAvailableNotification e2 d st0) =
   (VulnerabilityNotification_zero, Some ErrNotFound)) ∧
  let (st1, err) := pgsql.SetNotificationNotified e1 n st in
  err = None ∧
  (Now e2 - Now e1 <= d →
   ¬ hands_out n (snd (pgsql.GetAvailableNotification e2 d st1))) ∧
  (Now e2 - Now e1 > d →
   ∀ r, In r (rows st) → name r = n → deleted_at r = None →
        locked e2 n = false →
     (∃ v, snd (pgsql.GetAvailableNotification e2 d st1) = (v, None)) ∧
     (∃ k, hands_out n
             (snd (pgsql.GetAvailableNotification (with_pick k e2) d st1))) ∧
     ((∀ r', In r' (rows st1) → qualifies e2 d r' → name r' = n) →
      hands_out n (snd (pgsql.GetAvailableNotification e2 d st1)))).
Proof.
  intros Hf1 Hf2 Hd.
  split; [intros v; apply GetAvailableNotification_sound; assumption|].
  split; [intros r; apply GetAvailableNotification_complete; assumption|].
  split; [apply GetAvailableNotification_empty; assumption|].
  pose proof (marked_withheld e1 e2 d n st Hf1 Hf2 Hd) as Hwithheld.
  pose proof (fun r => marked_qualifies_again e1 e2 d st r Hf1) as Hagain.
  destruct (pgsql.SetNotificationNotified e1 n st) as [st1 err] eqn:Hset.
  assert (Herr : err = None).
  { rewrite SetNotificationNotified_healthy in Hset by exact Hf1. congruence. }
  simpl in Hwithheld.
  split; [exact Herr|].
  split; [exact Hwithheld|].
  intros Hel r Hin Hname Hdel Hfree. rewrite <- Hname in Hfree.
  destruct (Hagain r Hel Hin Hdel Hfree) as [Hin1 Hq1].
  rewrite Hname, Hset in Hin1. simpl in Hin1.
  split; [exact (GetAvailableNotification_some e2 d st1 _ Hf2 Hd Hin1 Hq1)|].
  split.
  - destruct (GetAvailableNotification_complete e2 d st1 _ Hf2 Hd Hin1 Hq1)
      as [k Hk].
    exists k. unfold hands_out. rewrite Hk. simpl. rewrite Hname. auto.
  - intros Honly.
    exact (GetAvailableNotification_only e2 d st1 _ n Hf2 Hd Hin1 Hq1 Honly).
Qed.

Lemma renotify_window_witness :
  negatable 10 ∧
  ¬ hands_out "a"
      (snd (pgsql.GetAvailableNotification (clock 120) 10
              (fst (pgsql.SetNotificationNotified (clock 110) "a" store_a)))) ∧
  hands_out "a"
      (snd (pgsql.GetAvailableNotification (clock 121) 10
              (fst (pgsql.SetNotificationNotified (clock 110) "a" store_a)))).
Proof.
  assert (Hd : negatable 10) by (unfold negatable; lia).
  split; [exact Hd|]. split.
  - pose proof (renotify_window (clock 110) (clock 120) 10
                  store_a store_a "a" eq_refl eq_refl Hd) as (_ & _ & _ & H).
    simpl in H. destruct H as (_ & H & _). apply H. lia.
  - pose proof (renotify_window (clock 110) (clock 121) 10
                  store_a store_a "a" eq_refl eq_refl Hd) as (_ & _ & _ & H).
    simpl in H. destruct H as (_ & _ & H).
    assert (Hel : 121 - 110 > 10) by lia.
    destruct (H Hel row_a (or_introl eq_refl) eq_refl eq_refl eq_refl)
      as (_ & _ & Honly).
    apply Honly. intros r' [<- | []] _. reflexivity.
Defined.

(** The boundary of the window: with the mark at instant 110 and an
    interval of 10, at instant 120 the elapsed time equals the interval
    and the live notification is not handed out; the call reports
    [NotFound].  And a notification that was never notified nor deleted
    is not handed out while a valid Lock is held on its name. *)
Lemma renotify_boundary_counterexample :
  let e1 := clock 110 in
  let e2 := clock 120 in
  let st1 := fst (pgsql.SetNotificationNotified e1 "a" store_a) in
  (snd (pgsql.SetNotificationNotified e1 "a" store_a) = None ∧
   Now e2 - Now e1 >= 10 ∧
   (∀ r, In r (rows st1) → name r = "a" ∧ deleted_at r = None) ∧
   snd (pgsql.GetAvailableNotification e2 10 st1) =
   (VulnerabilityNotification_zero, Some ErrNotFound) ∧
   ¬ hands_out "a" (snd (pgsql.GetAvailableNotification e2 10 st1))) ∧
  (rows store_a = [row_a] ∧
   deleted_at row_a = None ∧ notified_at row_a = None ∧
   snd (pgsql.GetAvailableNotification (env_holding 101 "a") 10 store_a) =
   (VulnerabilityNotification_zero, Some ErrNotFound)).
Proof.
  simpl. split.
  - split; [reflexivity|]. split; [lia|]. split.
    + intros r [<- | []]. split; reflexivity.
    + split; [reflexivity|]. intros [Herr _]. discriminate Herr.
  - repeat split.
Qed.

(** The mark never reports [NotFound]: the result of the update, with its
    count of affected rows, is dropped, and the driver's errors all map to
    [BackendException]. *)
Lemma SetNotificationNotified_errors (e : Env) (n : string) (st : Store) :
  snd (pgsql.SetNotificationNotified e n st) = None ∨
  snd (pgsql.SetNotificationNotified e n st) = Some ErrBackendException.
Proof.
  destruct (fault e) as [msg|] eqn:Hf.
  - right. rewrite (SetNotificationNotified_fault e n st msg Hf). reflexivity.
  - left. rewrite SetNotificationNotified_healthy by exact Hf. reflexivity.
Qed.

(** C2, where the code departs from it.  On a table without a row named
    [missing], [SetNotificationNotified] returns [nil] and leaves the
    table as it was, where [DeleteNotification] on the same input returns
    [NotFound]; and on no input at all does [SetNotificationNotified]
    return [NotFound]. *)
Theorem SetNotificationNotified_unknown_name :
  (∀ r, In r (rows store_a) → name r ≠ "missing") ∧
  pgsql.SetNotificationNotified (clock 110) "missing" store_a =
  (store_a, None) ∧
  pgsql.DeleteNotification (clock 110) "missing" store_a =
  (store_a, Some ErrNotFound) ∧
  (∀ e n st, snd (pgsql.SetNotificationNotified e n st) ≠ Some ErrNotFound).
Proof.
  split; [intros r [<- | []]; discriminate|].
  split; [reflexivity|].
  split; [reflexivity|].
  intros e n st.
  destruct (SetNotificationNotified_errors e n st) as [-> | ->]; discriminate.
Qed.

(** ** DeleteNotification *)

Lemma deletable_true (n : string) (r : NotificationRow) :
  deletable n r = true ↔ name r = n ∧ deleted_at r = None.
Proof.
  unfold deletable. rewrite andb_true_iff, has_name_true, is_null_true.
  reflexivity.
Qed.

Lemma count_where_zero (p : NotificationRow → bool) (l : list NotificationRow) :
  count_where p l <= 0 ↔ ∀ r, In r l → p r = false.
Proof.
  unfold count_where. induction l as [|a l IH]; simpl.
  - split; [intros _ r []|lia].
  - destruct (p a) eqn:Hp; simpl.
    + split; [lia|]. intros H. specialize (H a (or_introl eq_refl)). congruence.
    + rewrite IH. split.
      * intros H r [<- | Hin]; auto.
      * intros H r Hin. apply H. right. exact Hin.
Qed.

Lemma update_where_none (p : NotificationRow → bool)
    (f : NotificationRow → NotificationRow) (l : list NotificationRow) :
  (∀ r, In r l → p r = false) → update_where p f l = l.
Proof.
  intros H. unfold update_where. induction l as [|a l IH]; simpl; [reflexivity|].
  rewrite (H a (or_introl eq_refl)). f_equal.
  apply IH. intros r Hin. apply H. right. exact Hin.
Qed.

Lemma DeleteNotification_healthy (e : Env) (n : string) (st : Store) :
  healthy e →
  pgsql.DeleteNotification e n st =
  ({| rows := update_where (deletable n) (set_deleted_at (Now e)) (rows st);
      next_id := next_id st |},
   if count_where (deletable n) (rows st) <=? 0 then Some ErrNotFound else None).
Proof.
  intros [Hf Hr]. unfold pgsql.DeleteNotification, Exec, run, RowsAffected.
  rewrite Hf, Hr. simpl.
  destruct (count_where (deletable n) (rows st) <=? 0); reflexivity.
Qed.

(** A failing driver surfaces as [BackendException], and then nothing was
    deleted if it is the statement that failed. *)
Lemma DeleteNotification_fault (e : Env) (n : string) (st : Store) (msg : string) :
  fault e = Some msg →
  pgsql.DeleteNotification e n st = (st, Some ErrBackendException).
Proof.
  intros Hf. unfold pgsql.DeleteNotification, Exec, run.
  rewrite Hf. reflexivity.
Qed.

(** Once deleted, no row of that name is deletable. *)
Lemma deleted_not_deletable (t : Time) (n : string) (l : list NotificationRow)
    (r' : NotificationRow) :
  In r' (update_where (deletable n) (set_deleted_at t) l) →
  deletable n r' = false.
Proof.
  intros Hin. apply In_update_where in Hin as [r [_ ->]].
  destruct (deletable n r) eqn:Hp; [|exact Hp].
  unfold deletable. simpl. apply andb_false_r.
Qed.

(** C3.  [DeleteNotification] sets [Deleted = now] on the live row of
    that name and leaves every other row as it was; it fails with
    [NotFound] exactly when no live row bears the name, in which case the
    table is unchanged; a second delete of the same name returns
    [NotFound], and so does the delete of a name that no row bears.  The
    last three parts spell the effect out field by field: a live row of
    that name is in the table afterwards with [Deleted] at the instant of
    the call and every other field as before; every other row is in the
    table afterwards as it was; and the table holds nothing else. *)
Theorem DeleteNotification_NotFound (e1 e2 : Env) (n : string) (st : Store) :
  healthy e1 → healthy e2 →
  let (st1, err1) := pgsql.DeleteNotification e1 n st in
  (∀ r', In r' (rows st1) ↔
         ∃ r, In r (rows st) ∧
              r' = if deletable n r then set_deleted_at (Now e1) r else r) ∧
  (err1 = None ↔ ∃ r, In r (rows st) ∧ name r = n ∧ deleted_at r = None) ∧
  (err1 = Some ErrNotFound ↔
   ∀ r, In r (rows st) → ¬ (name r = n ∧ deleted_at r = None)) ∧
  (err1 = Some ErrNotFound → st1 = st) ∧
  snd (pgsql.DeleteNotification e2 n st1) = Some ErrNotFound ∧
  ((∀ r, In r (rows st) → name r ≠ n) → err1 = Some ErrNotFound) ∧
  (∀ r, In r (rows st) → name r = n → deleted_at r = None →
        In {| id := id r; name := name r; created_at := created_at r;
              notified_at := notified_at r; deleted_at := Some (Now e1);
              old_vulnerability_id := old_vulnerability_id r;
              new_vulnerability_id := new_vulnerability_id r |}
           (rows st1)) ∧
  (∀ r, In r (rows st) → ¬ (name r = n ∧ deleted_at r = None) →
        In r (rows st1)) ∧
  (∀ r', In r' (rows st1) →
         In r' (rows st) ∨ (name r' = n ∧ deleted_at r' = Some (Now e1))).
Proof.
  intros H1 H2. rewrite DeleteNotification_healthy by exact H1.
  assert (Hzero : count_where (deletable n) (rows st) <= 0 ↔
                  ∀ r, In r (rows st) → ¬ (name r = n ∧ deleted_at r = None)).
  { rewrite count_where_zero. split; intros H r Hin.
    - rewrite <- deletable_true. rewrite (H r Hin). discriminate.
    - specialize (H r Hin). rewrite <- deletable_true in H.
      destruct (deletable n r); [exfalso; auto|reflexivity]. }
  split; [intros r'; apply In_update_where|].
  split.
  { destruct (Z.leb_spec (count_where (deletable n) (rows st)) 0) as [Hle | Hgt].
    - split; [discriminate|]. intros [r [Hin Hr]]. exfalso.
      exact (proj1 Hzero Hle r Hin Hr).
    - split; [|reflexivity]. intros _.
      destruct (List.filter (deletable n) (rows st)) as [|r l] eqn:Hfl.
      + unfold count_where in Hgt. rewrite Hfl in Hgt. simpl in Hgt. lia.
      + assert (Hin : In r (List.filter (deletable n) (rows st)))
          by (rewrite Hfl; left; reflexivity).
        apply filter_In in Hin as [Hin Hp]. apply deletable_true in Hp.
        exists r. auto. }
  split.
  { destruct (Z.leb_spec (count_where (deletable n) (rows st)) 0) as [Hle | Hgt].
    - split; [intros _; exact (proj1 Hzero Hle)|reflexivity].
    - split; [discriminate|]. intros H. apply (proj2 Hzero) in H. lia. }
  split.
  { destruct (Z.leb_spec (count_where (deletable n) (rows st)) 0) as [Hle | Hgt];
      [|discriminate].
    intros _. pose proof (proj1 (count_where_zero _ _) Hle) as Hnone.
    rewrite update_where_none by exact Hnone. destruct st; reflexivity. }
  split.
  { rewrite DeleteNotification_healthy by exact H2. simpl.
    assert (Hle : count_where (deletable n)
                    (update_where (deletable n) (set_deleted_at (Now e1)) (rows st))
                  <= 0).
    { apply count_where_zero. intros r'. apply deleted_not_deletable. }
    apply Z.leb_le in Hle. rewrite Hle. reflexivity. }
  split.
  { intros Hno.
    assert (Hle : count_where (deletable n) (rows st) <= 0).
    { apply (proj2 Hzero). intros r Hin [Hn _]. exact (Hno r Hin Hn). }
    apply Z.leb_le in Hle. rewrite Hle. reflexivity. }
  split.
  { intros r Hin Hn Hnull. apply In_update_where. exists r.
    split; [exact Hin|].
    assert (Hp : deletable n r = true) by (apply deletable_true; auto).
    rewrite Hp. reflexivity. }
  split.
  { intros r Hin Hnot. apply In_update_where. exists r.
    split; [exact Hin|].
    destruct (deletable n r) eqn:Hp; [|reflexivity].
    apply deletable_true in Hp. contradiction. }
  intros r' Hin'. apply In_update_where in Hin' as [r [Hin ->]].
  destruct (deletable n r) eqn:Hp; [|left; exact Hin].
  apply deletable_true in Hp as [Hn _]. right. split; [exact Hn|reflexivity].
Qed.

Lemma DeleteNotification_NotFound_witness :
  healthy (clock 130) ∧ healthy (clock 131) ∧
  snd (pgsql.DeleteNotification (clock 130) "a" store_a) = None ∧
  snd (pgsql.DeleteNotification (clock 131) "a"
         (fst (pgsql.DeleteNotification (clock 130) "a" store_a))) =
  Some ErrNotFound ∧
  In {| id := 1; name := "a"; created_at := 100;
        notified_at := None; deleted_at := Some 130;
        old_vulnerability_id := None; new_vulnerability_id := Some 7 |}
     (rows (fst (pgsql.DeleteNotification (clock 130) "a" store_a))).
Proof.
  assert (H1 : healthy (clock 130)) by (split; reflexivity).
  assert (H2 : healthy (clock 131)) by (split; reflexivity).
  split; [exact H1|]. split; [exact H2|].
  pose proof (DeleteNotification_NotFound (clock 130) (clock 131)
                "a" store_a H1 H2) as H.
  destruct (pgsql.DeleteNotification (clock 130) "a" store_a) as [st1 err1]
    eqn:Hdel.
  destruct H as (_ & Hnil & _ & _ & Htwice & _ & Hset & _).
  split; [|split].
  - apply Hnil. exists row_a. simpl. auto.
  - exact Htwice.
  - exact (Hset row_a (or_introl eq_refl) eq_refl eq_refl).
Defined.

(** ** GetNotification *)

Lemma find_has_name_Some (n : string) (l : list NotificationRow)
    (r : NotificationRow) :
  List.find (has_name n) l = Some r → In r l ∧ name r = n.
Proof.
  intros H. apply find_some in H as [Hin Hp].
  split; [exact Hin|]. apply has_name_true. exact Hp.
Qed.

Lemma find_has_name_None (n : string) (l : list NotificationRow) :
  List.find (has_name n) l = None ↔ ∀ r, In r l → name r ≠ n.
Proof.
  induction l as [|a l IH]; simpl.
  - split; [intros _ r []|reflexivity].
  - destruct (has_name n a) eqn:Hp.
    + apply has_name_true in Hp. split; [discriminate|].
      intros H. exfalso. exact (H a (or_introl eq_refl) Hp).
    + apply has_name_false in Hp. rewrite IH. split.
      * intros H r [<- | Hin]; auto.
      * intros H r Hin. apply H. right. exact Hin.
Qed.

Lemma find_has_name_unique (n : string) (l : list NotificationRow)
    (r : NotificationRow) :
  List.NoDup (List.map name l) → In r l → name r = n →
  List.find (has_name n) l = Some r.
Proof.
  induction l as [|a l IH]; simpl; intros Hnd Hin Hn; [destruct Hin|].
  apply List.NoDup_cons_iff in Hnd as [Hnotin Hnd].
  destruct Hin as [-> | Hin].
  - assert (Hp : has_name n r = true) by (apply has_name_true; exact Hn).
    rewrite Hp. reflexivity.
  - destruct (has_name n a) eqn:Hp.
    + apply has_name_true in Hp. exfalso. apply Hnotin.
      rewrite Hp, <- Hn. apply in_map. exact Hin.
    + apply IH; assumption.
Qed.

Lemma find_has_name_last (n : string) (l : list NotificationRow)
    (r : NotificationRow) :
  (∀ r', In r' l → name r' ≠ n) → name r = n →
  List.find (has_name n) (l ++ [r]) = Some r.
Proof.
  intros Hfresh Hn. induction l as [|a l IH]; simpl.
  - assert (Hp : has_name n r = true) by (apply has_name_true; exact Hn).
    rewrite Hp. reflexivity.
  - assert (Hp : has_name n a = false).
    { apply has_name_false. apply Hfresh. left. reflexivity. }
    rewrite Hp. apply IH. intros r' Hin. apply Hfresh. right. exact Hin.
Qed.

Lemma GetNotification_healthy (e : Env) (n : string) (st : Store) :
  fault e = None →
  pgsql.GetNotification e n st =
  (st,
   match List.find (has_name n) (rows st) with
   | Some r => (notification_of_row r, None)
   | None => (VulnerabilityNotification_zero, Some ErrNotFound)
   end).
Proof.
  intros Hf. unfold pgsql.GetNotification, QueryRow, run. rewrite Hf.
  destruct (List.find (has_name n) (rows st)) as [r|]; simpl; [|reflexivity].
  unfold notification_of_row.
  destruct (notified_at r), (deleted_at r),
    (old_vulnerability_id r), (new_vulnerability_id r); reflexivity.
Qed.

Lemma GetNotification_fault (e : Env) (n : string) (st : Store) (msg : string) :
  fault e = Some msg →
  pgsql.GetNotification e n st =
  (st, (VulnerabilityNotification_zero, Some ErrBackendException)).
Proof.
  intros Hf. unfold pgsql.GetNotification, QueryRow, run. rewrite Hf.
  reflexivity.
Qed.

(** A reference of a notification is nil or a vulnerability that carries
    its [Model] and nothing else. *)
Lemma vulnerability_of_column_bare (c : option Z) (u : Vulnerability) :
  vulnerability_of_column c = Some u →
  u = Vulnerability_of_Model (Vulnerability_Model u) ∧
  FixedIn u = [] ∧ LayersIntroducingVulnerability u = [] ∧
  ∃ k, c = Some k ∧ ID (Vulnerability_Model u) = int_of_int64 k.
Proof.
  destruct c as [k|]; simpl; [|discriminate].
  intros [= <-]. simpl. repeat split. exists k. auto.
Qed.

(** C7.  [GetNotification] returns the notification of that name, by
    exact match and whatever its deleted or notified state; it fails with
    [NotFound] when no row has the name; what it returns has the scalar
    fields of the row, and each of the two references is nil when the
    column is NULL and otherwise a vulnerability holding the stored
    identifier in its [Model] and nothing else: no name, no description,
    no fix list, no layer list.  The table is left as it was.  The last
    part spells the returned notification out field by field. *)
Theorem GetNotification_exact (e : Env) (n : string) (st : Store) :
  fault e = None →
  fst (pgsql.GetNotification e n st) = st ∧
  (∀ r, unique_names st → In r (rows st) → name r = n →
        snd (pgsql.GetNotification e n st) = (notification_of_row r, None)) ∧
  ((∀ r, In r (rows st) → name r ≠ n) →
   snd (pgsql.GetNotification e n st) =
   (VulnerabilityNotification_zero, Some ErrNotFound)) ∧
  (∀ v, snd (pgsql.GetNotification e n st) = (v, None) →
        (∃ r, In r (rows st) ∧ name r = n ∧ v = notification_of_row r) ∧
        Name v = n ∧
        (∀ u, OldVulnerability v = Some u ∨ NewVulnerability v = Some u →
              u = Vulnerability_of_Model (Vulnerability_Model u) ∧
              FixedIn u = [] ∧ LayersIntroducingVulnerability u = [])) ∧
  (∀ v, snd (pgsql.GetNotification e n st) = (v, None) →
        ∃ r, In r (rows st) ∧ name r = n ∧
             v = {| VulnerabilityNotification_Model := {| ID := id r |};
                    Name := n;
                    Created := created_at r;
                    Notified := match notified_at r with
                                | Some t => t
                                | None => 0
                                end;
                    Deleted := match deleted_at r with
                               | Some t => t
                               | None => 0
                               end;
                    OldVulnerability :=
                      match old_vulnerability_id r with
                      | Some k =>
                        Some {| Vulnerability_Model := {| ID := int_of_int64 k |};
                                Vulnerability_Name := EmptyString;
                                Namespace := EmptyString;
                                Description := EmptyString;
                                Link := EmptyString;
                                Severity := EmptyString;
                                FixedIn := [];
                                LayersIntroducingVulnerability := [] |}
                      | None => None
                      end;
                    NewVulnerability :=
                      match new_vulnerability_id r with
                      | Some k =>
                        Some {| Vulnerability_Model := {| ID := int_of_int64 k |};
                                Vulnerability_Name := EmptyString;
                                Namespace := EmptyString;
                                Description := EmptyString;
                                Link := EmptyString;
                                Severity := EmptyString;
                                FixedIn := [];
                                LayersIntroducingVulnerability := [] |}
                      | None => None
                      end |}).
Proof.
  intros Hf. rewrite GetNotification_healthy by exact Hf. simpl.
  split; [reflexivity|]. split.
  { intros r Hu Hin Hn.
    rewrite (find_has_name_unique n (rows st) r Hu Hin Hn). reflexivity. }
  split.
  { intros Hno. apply find_has_name_None in Hno. rewrite Hno. reflexivity. }
  split.
  { intros v. destruct (List.find (has_name n) (rows st)) as [r|] eqn:Hfind;
      [|discriminate].
    intros [= <-]. apply find_has_name_Some in Hfind as [Hin Hn].
    split; [exists r; auto|]. split; [exact Hn|].
    intros u [Hu | Hu]; simpl in Hu;
      apply vulnerability_of_column_bare in Hu as (H1 & H2 & H3 & _); auto. }
  intros v. destruct (List.find (has_name n) (rows st)) as [r|] eqn:Hfind;
    [|discriminate].
  intros [= <-]. apply find_has_name_Some in Hfind as [Hin Hn].
  exists r. split; [exact Hin|]. split; [exact Hn|].
  rewrite <- Hn. unfold notification_of_row.
  destruct (notified_at r), (deleted_at r),
    (old_vulnerability_id r), (new_vulnerability_id r); reflexivity.
Qed.

Lemma GetNotification_exact_witness :
  fault (clock 140) = None ∧
  snd (pgsql.GetNotification (clock 140) "a"
         (fst (pgsql.DeleteNotification (clock 130) "a" store_a))) =
  (notification_of_row (set_deleted_at 130 row_a), None) ∧
  snd (pgsql.GetNotification (clock 140) "b" store_a) =
  (VulnerabilityNotification_zero, Some ErrNotFound) ∧
  snd (pgsql.GetNotification (clock 140) "a"
         (fst (pgsql.DeleteNotification (clock 130) "a" store_a))) =
  ({| VulnerabilityNotification_Model := {| ID := 1 |};
      Name := "a"; Created := 100; Notified := 0; Deleted := 130;
      OldVulnerability := None;
      NewVulnerability :=
        Some {| Vulnerability_Model := {| ID := 7 |};
                Vulnerability_Name := EmptyString;
                Namespace := EmptyString;
                Description := EmptyString;
                Link := EmptyString;
                Severity := EmptyString;
                FixedIn := [];
                LayersIntroducingVulnerability := [] |} |}, None).
Proof.
  assert (Hu : unique_names
                 (fst (pgsql.DeleteNotification (clock 130) "a" store_a))).
  { unfold unique_names. simpl.
    apply List.NoDup_cons; [intros []|apply List.NoDup_nil]. }
  pose proof (GetNotification_exact (clock 140) "a"
                (fst (pgsql.DeleteNotification (clock 130) "a" store_a))
                eq_refl) as (_ & Hrow & _ & _ & Hfields).
  pose proof (Hrow (set_deleted_at 130 row_a) Hu (or_introl eq_refl) eq_refl)
    as Hget.
  split; [reflexivity|]. split; [exact Hget|]. split.
  - pose proof (GetNotification_exact (clock 140) "b" store_a eq_refl)
      as (_ & _ & H & _).
    apply H. intros r [<- | []]. discriminate.
  - destruct (Hfields _ Hget) as [r (Hin & _ & Hv)].
    destruct Hin as [<- | []].
    rewrite Hget, Hv. reflexivity.
Defined.

(** C8.  [GetAvailableNotification] is read-only: whatever the clock, the
    interval, the tie-break and the driver's state, the table it hands
    back is the table it was given, so [Notified] is not set and no field
    of any row changes; and the notification it returns on success is a
    row's [ID], [Name], [Created], [Notified] and [Deleted], with
    [OldVulnerability] and [NewVulnerability] both nil. *)
Theorem GetAvailableNotification_read_only (e : Env) (d : Duration) (st : Store) :
  fst (pgsql.GetAvailableNotification e d st) = st ∧
  OldVulnerability (fst (snd (pgsql.GetAvailableNotification e d st))) = None ∧
  NewVulnerability (fst (snd (pgsql.GetAvailableNotification e d st))) = None ∧
  (∀ v, snd (pgsql.GetAvailableNotification e d st) = (v, None) →
        ∃ r, In r (rows st) ∧
             ID (VulnerabilityNotification_Model v) = id r ∧
             Name v = name r ∧
             Created v = created_at r ∧
             Notified v = time_of_column (notified_at r) ∧
             Deleted v = time_of_column (deleted_at r) ∧
             OldVulnerability v = None ∧ NewVulnerability v = None).
Proof.
  destruct (fault e) as [msg|] eqn:Hf.
  - rewrite (GetAvailableNotification_fault e d st msg Hf). simpl.
    repeat split. intros v [=].
  - rewrite GetAvailableNotification_healthy by exact Hf. simpl.
    destruct (limit_1 e _) as [r|] eqn:Hl; simpl.
    + repeat split. intros v [= <-]. apply limit_1_In in Hl.
      apply filter_In in Hl as [Hin _].
      exists r. simpl. repeat split. exact Hin.
    + repeat split. intros v [=].
Qed.

Lemma GetAvailableNotification_read_only_witness :
  fst (pgsql.GetAvailableNotification (clock 101) 10 store_a) = store_a ∧
  ∃ r, In r (rows store_a) ∧ name r = "a" ∧ notified_at r = None.
Proof.
  pose proof (GetAvailableNotification_read_only (clock 101) 10 store_a)
    as (Hst & _ & _ & Hrow).
  split; [exact Hst|].
  destruct (Hrow (scalars_of_row row_a) eq_refl) as [r (Hin & _ & Hn & _)].
  exists r. split; [exact Hin|]. split; [symmetry; exact Hn|].
  destruct Hin as [<- | []]. reflexivity.
Defined.

(** ** CreateNotification *)

Lemma existsb_has_name_false (n : string) (l : list NotificationRow) :
  List.existsb (has_name n) l = false ↔ ∀ r, In r l → name r ≠ n.
Proof.
  induction l as [|a l IH]; simpl.
  - split; [intros _ r []|reflexivity].
  - rewrite orb_false_iff, IH, has_name_false. split.
    + intros [Ha Hl] r [<- | Hin]; auto.
    + intros H. split; [apply H; left; reflexivity|].
      intros r Hin. apply H. right. exact Hin.
Qed.

Lemma existsb_has_name_true (n : string) (l : list NotificationRow) :
  List.existsb (has_name n) l = true ↔ ∃ r, In r l ∧ name r = n.
Proof.
  rewrite existsb_exists. split; intros [r [Hin Hp]]; exists r;
    (split; [exact Hin|]); apply has_name_true; exact Hp.
Qed.

Lemma CreateNotification_healthy (e : Env) (old new : Model) (st : Store) :
  fault e = None →
  (∀ r, In r (rows st) → name r ≠ uuid_New e) →
  pgsql.CreateNotification e old new st =
  ({| rows := rows st ++ [inserted_row e st old new];
      next_id := next_id st + 1 |}, None).
Proof.
  intros Hf Hfresh. apply existsb_has_name_false in Hfresh.
  unfold pgsql.CreateNotification, Exec, run. rewrite Hf, Hfresh.
  unfold inserted_row, NullInt64_Value. simpl.
  destruct (ID old =? 0), (ID new =? 0); reflexivity.
Qed.

Lemma CreateNotification_fault (e : Env) (old new : Model) (st : Store)
    (msg : string) :
  fault e = Some msg →
  pgsql.CreateNotification e old new st = (st, Some ErrBackendException).
Proof.
  intros Hf. unfold pgsql.CreateNotification, Exec, run. rewrite Hf.
  reflexivity.
Qed.

Lemma CreateNotification_taken (e : Env) (old new : Model) (st : Store)
    (r : NotificationRow) :
  In r (rows st) → name r = uuid_New e →
  pgsql.CreateNotification e old new st = (st, Some ErrBackendException).
Proof.
  intros Hin Hn.
  assert (Hex : List.existsb (has_name (uuid_New e)) (rows st) = true)
    by (apply existsb_has_name_true; eauto).
  unfold pgsql.CreateNotification, Exec, run.
  destruct (fault e); [reflexivity|]. rewrite Hex. reflexivity.
Qed.

(** The three ways a creation ends. *)
Lemma CreateNotification_cases (e : Env) (old new : Model) (st : Store) :
  (fault e = None ∧ (∀ r, In r (rows st) → name r ≠ uuid_New e) ∧
   pgsql.CreateNotification e old new st =
   ({| rows := rows st ++ [inserted_row e st old new];
       next_id := next_id st + 1 |}, None)) ∨
  ((fault e ≠ None ∨ ∃ r, In r (rows st) ∧ name r = uuid_New e) ∧
   pgsql.CreateNotification e old new st = (st, Some ErrBackendException)).
Proof.
  destruct (fault e) as [msg|] eqn:Hf.
  - right. split; [left; discriminate|].
    exact (CreateNotification_fault e old new st msg Hf).
  - destruct (List.existsb (has_name (uuid_New e)) (rows st)) eqn:Hex.
    + apply existsb_has_name_true in Hex as [r [Hin Hn]]. right.
      split; [right; eauto|].
      exact (CreateNotification_taken e old new st r Hin Hn).
    + pose proof (proj1 (existsb_has_name_false _ _) Hex) as Hfresh.
      clear Hex. rename Hfresh into Hex. left.
      split; [reflexivity|]. split; [exact Hex|].
      exact (CreateNotification_healthy e old new st Hf Hex).
Qed.

(** C6.  For every pair of references, [CreateNotification] inserts
    exactly one row: its [Name] is the UUID drawn for the call, whatever
    the arguments, [Created] is now, [Notified] and [Deleted] are absent;
    every other row is kept.  The call fails, with [BackendException] and
    an unchanged table, exactly on a persistence failure (the driver
    fails, or the name is taken); the references play no part in whether
    it succeeds. *)
Theorem CreateNotification_inserts (e : Env) (old new : Model) (st : Store) :
  let (st1, err) := pgsql.CreateNotification e old new st in
  (fault e = None → (∀ r, In r (rows st) → name r ≠ uuid_New e) →
   err = None ∧
   ∃ r, rows st1 = rows st ++ [r] ∧ id r = next_id st ∧
        name r = uuid_New e ∧ created_at r = Now e ∧
        notified_at r = None ∧ deleted_at r = None) ∧
  (err = None ∨ err = Some ErrBackendException) ∧
  (err = Some ErrBackendException ↔
   fault e ≠ None ∨ ∃ r, In r (rows st) ∧ name r = uuid_New e) ∧
  (err = Some ErrBackendException → st1 = st) ∧
  (∀ old' new',
     snd (pgsql.CreateNotification e old' new' st) = err ∧
     List.map name (rows (fst (pgsql.CreateNotification e old' new' st))) =
     List.map name (rows st1)).
Proof.
  assert (Hindep : ∀ old' new',
    snd (pgsql.CreateNotification e old' new' st) =
    snd (pgsql.CreateNotification e old new st) ∧
    List.map name (rows (fst (pgsql.CreateNotification e old' new' st))) =
    List.map name (rows (fst (pgsql.CreateNotification e old new st)))).
  { intros old' new'.
    destruct (CreateNotification_cases e old new st)
      as [(Hf & Hfresh & ->) | [Hwhy ->]].
    - rewrite (CreateNotification_healthy e old' new' st Hf Hfresh). simpl.
      split; [reflexivity|]. rewrite !map_app. reflexivity.
    - destruct Hwhy as [Hf | [r [Hin Hn]]].
      + destruct (fault e) as [msg|] eqn:Hfe; [|congruence].
        rewrite (CreateNotification_fault e old' new' st msg Hfe). auto.
      + rewrite (CreateNotification_taken e old' new' st r Hin Hn). auto. }
  destruct (CreateNotification_cases e old new st)
    as [(Hf & Hfresh & Hc) | [Hwhy Hc]]; rewrite Hc in *; simpl in Hindep.
  - split.
    { intros _ _. split; [reflexivity|].
      exists (inserted_row e st old new). simpl. repeat split. }
    split; [left; reflexivity|].
    split.
    { split; [discriminate|]. intros [H | [r [Hin Hn]]]; [congruence|].
      exfalso. exact (Hfresh r Hin Hn). }
    split; [discriminate|]. exact Hindep.
  - split.
    { intros Hf Hfresh. exfalso. destruct Hwhy as [H | [r [Hin Hn]]];
        [congruence|exact (Hfresh r Hin Hn)]. }
    split; [right; reflexivity|].
    split; [split; auto|].
    split; [reflexivity|]. exact Hindep.
Qed.

Lemma CreateNotification_inserts_witness :
  fault (env_at 150 "b") = None ∧
  (∀ r, In r (rows store_a) → name r ≠ uuid_New (env_at 150 "b")) ∧
  snd (pgsql.CreateNotification (env_at 150 "b") {| ID := 7 |} {| ID := 8 |}
         store_a) = None ∧
  ∃ r, rows (fst (pgsql.CreateNotification (env_at 150 "b") {| ID := 7 |}
                    {| ID := 8 |} store_a)) = rows store_a ++ [r] ∧
       name r = "b" ∧ created_at r = 150 ∧
       notified_at r = None ∧ deleted_at r = None.
Proof.
  assert (Hfresh : ∀ r, In r (rows store_a) → name r ≠ uuid_New (env_at 150 "b"))
    by (intros r [<- | []]; discriminate).
  split; [reflexivity|]. split; [exact Hfresh|].
  pose proof (CreateNotification_inserts (env_at 150 "b") {| ID := 7 |}
                {| ID := 8 |} store_a) as H.
  simpl in H. destruct H as (H & _).
  destruct (H eq_refl Hfresh) as [Herr [r (Hr & _ & Hn & Hc & Ht & Hd)]].
  split; [reflexivity|].
  exists r. simpl. auto.
Defined.

Lemma vulnerability_of_column_None (c : option Z) :
  vulnerability_of_column c = None ↔ c = None.
Proof. destruct c; simpl; split; congruence. Qed.

Lemma inserted_old_absent (e : Env) (st : Store) (old new : Model) :
  old_vulnerability_id (inserted_row e st old new) = None ↔ ID old = 0.
Proof.
  simpl. destruct (Z.eqb_spec (ID old) 0) as [H0 | H0];
    split; congruence.
Qed.

Lemma inserted_new_absent (e : Env) (st : Store) (old new : Model) :
  new_vulnerability_id (inserted_row e st old new) = None ↔ ID new = 0.
Proof.
  simpl. destruct (Z.eqb_spec (ID new) 0) as [H0 | H0];
    split; congruence.
Qed.

Lemma sentinel_column (x : Z) :
  is_int x →
  (if x =? 0 then None else Some (int64_of_int x)) ≠ Some 0 ∧
  (x ≠ 0 → (if x =? 0 then None else Some (int64_of_int x)) = Some x).
Proof.
  intros Hx. unfold int64_of_int. rewrite wrap64_small by exact Hx.
  destruct (Z.eqb_spec x 0) as [H0 | H0].
  - split; [discriminate|]. intros H. contradiction.
  - split; [congruence|]. reflexivity.
Qed.

(** C10.  [CreateNotification] encodes an absent reference by the
    identifier zero: in the row a successful call inserts, the old
    (respectively new) reference is NULL if and only if the [ID] passed
    is 0; no [ID] is ever stored as a present 0, a nonzero [ID] is stored
    as it is; [GetNotification] then shows the reference absent exactly
    when the [ID] was 0.  The statement holds for every pair of
    identifiers, so a call with both at 0 is accepted and yields a
    notification with both references absent. *)
Theorem CreateNotification_zero_is_absent (e e' : Env) (old new : Model)
    (st : Store) :
  fault e = None → fault e' = None →
  (∀ r, In r (rows st) → name r ≠ uuid_New e) →
  ∃ st1 r,
    pgsql.CreateNotification e old new st = (st1, None) ∧
    rows st1 = rows st ++ [r] ∧
    (old_vulnerability_id r = None ↔ ID old = 0) ∧
    (new_vulnerability_id r = None ↔ ID new = 0) ∧
    (is_int (ID old) →
     old_vulnerability_id r ≠ Some 0 ∧
     (ID old ≠ 0 → old_vulnerability_id r = Some (ID old))) ∧
    (is_int (ID new) →
     new_vulnerability_id r ≠ Some 0 ∧
     (ID new ≠ 0 → new_vulnerability_id r = Some (ID new))) ∧
    ∃ v, snd (pgsql.GetNotification e' (uuid_New e) st1) = (v, None) ∧
         (OldVulnerability v = None ↔ ID old = 0) ∧
         (NewVulnerability v = None ↔ ID new = 0).
Proof.
  intros Hf Hf' Hfresh.
  exists {| rows := rows st ++ [inserted_row e st old new];
            next_id := next_id st + 1 |}, (inserted_row e st old new).
  split; [exact (CreateNotification_healthy e old new st Hf Hfresh)|].
  split; [reflexivity|].
  split; [apply inserted_old_absent|].
  split; [apply inserted_new_absent|].
  split; [intros Hi; exact (sentinel_column (ID old) Hi)|].
  split; [intros Hi; exact (sentinel_column (ID new) Hi)|].
  exists (notification_of_row (inserted_row e st old new)).
  rewrite GetNotification_healthy by exact Hf'.
  cbn [snd fst rows].
  rewrite (find_has_name_last (uuid_New e) (rows st) (inserted_row e st old new)
             Hfresh eq_refl).
  split; [reflexivity|].
  cbn [OldVulnerability NewVulnerability notification_of_row].
  rewrite !vulnerability_of_column_None.
  split; [apply inserted_old_absent|apply inserted_new_absent].
Qed.

Lemma CreateNotification_zero_is_absent_witness :
  fault (env_at 150 "b") = None ∧
  (∀ r, In r (rows store_a) → name r ≠ uuid_New (env_at 150 "b")) ∧
  ∃ st1 r,
    pgsql.CreateNotification (env_at 150 "b") {| ID := 0 |} {| ID := 0 |} store_a =
    (st1, None) ∧
    rows st1 = rows store_a ++ [r] ∧
    old_vulnerability_id r = None ∧ new_vulnerability_id r = None.
Proof.
  assert (Hfresh : ∀ r, In r (rows store_a) → name r ≠ uuid_New (env_at 150 "b"))
    by (intros r [<- | []]; discriminate).
  split; [reflexivity|]. split; [exact Hfresh|].
  destruct (CreateNotification_zero_is_absent (env_at 150 "b") (clock 151)
              {| ID := 0 |} {| ID := 0 |} store_a eq_refl eq_refl Hfresh)
    as [st1 [r (Hc & Hr & Ho & Hn & _)]].
  exists st1, r. split; [exact Hc|]. split; [exact Hr|].
  split; [apply Ho; reflexivity|apply Hn; reflexivity].
Defined.

(** ** Interleaved callers and the lease *)

Lemma GetAvailableNotification_keeps_store (e : Env) (d : Duration) (st : Store) :
  fst (pgsql.GetAvailableNotification e d st) = st.
Proof.
  destruct (fault e) as [msg|] eqn:Hf.
  - rewrite (GetAvailableNotification_fault e d st msg Hf). reflexivity.
  - rewrite GetAvailableNotification_healthy by exact Hf. reflexivity.
Qed.

Lemma GetNotification_keeps_store (e : Env) (n : string) (st : Store) :
  fst (pgsql.GetNotification e n st) = st.
Proof.
  destruct (fault e) as [msg|] eqn:Hf.
  - rewrite (GetNotification_fault e n st msg Hf). reflexivity.
  - rewrite GetNotification_healthy by exact Hf. reflexivity.
Qed.

Lemma SetNotificationNotified_store (e : Env) (n : string) (st : Store) :
  fst (pgsql.SetNotificationNotified e n st) = st ∨
  rows (fst (pgsql.SetNotificationNotified e n st)) =
  update_where (has_name n) (set_notified_at (Now e)) (rows st).
Proof.
  destruct (fault e) as [msg|] eqn:Hf.
  - left. rewrite (SetNotificationNotified_fault e n st msg Hf). reflexivity.
  - right. rewrite SetNotificationNotified_healthy by exact Hf. reflexivity.
Qed.

(** The delete has run as soon as the statement succeeds, also when
    [RowsAffected] fails afterwards. *)
Lemma DeleteNotification_store (e : Env) (n : string) (st : Store) :
  fst (pgsql.DeleteNotification e n st) = st ∨
  rows (fst (pgsql.DeleteNotification e n st)) =
  update_where (deletable n) (set_deleted_at (Now e)) (rows st).
Proof.
  unfold pgsql.DeleteNotification, Exec, run, RowsAffected.
  destruct (fault e) as [msg|]; [left; reflexivity|]. right. simpl.
  destruct (rows_affected_fault e); [reflexivity|].
  destruct (count_where (deletable n) (rows st) <=? 0); reflexivity.
Qed.

Lemma CreateNotification_store (e : Env) (old new : Model) (st : Store) :
  fst (pgsql.CreateNotification e old new st) = st ∨
  ((∀ r, In r (rows st) → name r ≠ uuid_New e) ∧
   rows (fst (pgsql.CreateNotification e old new st)) =
   rows st ++ [inserted_row e st old new]).
Proof.
  destruct (CreateNotification_cases e old new st) as [(_ & Hfresh & ->) | [_ ->]].
  - right. split; [exact Hfresh|reflexivity].
  - left. reflexivity.
Qed.

(** A rewrite of rows that keeps names, and keeps or advances the mark,
    keeps the lease. *)
Lemma leased_update (t : Time) (n : string) (st st' : Store)
    (p : NotificationRow → bool) (f : NotificationRow → NotificationRow) :
  (∀ r, name (f r) = name r) →
  (∀ r, notified_at (f r) = notified_at r ∨
        ∃ t', notified_at (f r) = Some t' ∧ t <= t') →
  rows st' = update_where p f (rows st) →
  leased t n st → leased t n st'.
Proof.
  intros Hname Hmark Hrows [[r0 [Hin0 Hn0]] Hall]. split.
  - exists (if p r0 then f r0 else r0). split.
    + rewrite Hrows. apply In_update_where. exists r0. auto.
    + destruct (p r0); [rewrite Hname|]; exact Hn0.
  - intros r' Hin' Hn'. rewrite Hrows in Hin'.
    apply In_update_where in Hin' as [r [Hin ->]].
    destruct (p r).
    + rewrite Hname in Hn'. destruct (Hmark r) as [-> | Hadv].
      * exact (Hall r Hin Hn').
      * exact Hadv.
    + exact (Hall r Hin Hn').
Qed.

(** Every call issued at [t] or later keeps the lease. *)
Lemma step_leased (t : Time) (n : string) (ev : pgsql.Event) (st : Store) :
  t <= Now (pgsql.env ev) →
  leased t n st → leased t n (fst (pgsql.step ev st)).
Proof.
  intros Hclock Hl. unfold pgsql.step.
  destruct (pgsql.call ev) as [o w | d | n' | n' | n'].
  - destruct (pgsql.CreateNotification (pgsql.env ev) o w st) as [st' err] eqn:Hc.
    simpl.
    destruct (CreateNotification_store (pgsql.env ev) o w st) as [Hst | [Hfresh Hrows]];
      rewrite Hc in *; simpl in *; [subst st'; exact Hl|].
    destruct Hl as [[r0 [Hin0 Hn0]] Hall]. split.
    + exists r0. split; [|exact Hn0]. rewrite Hrows. apply in_or_app. auto.
    + intros r Hin Hn. rewrite Hrows in Hin.
      apply in_app_or in Hin as [Hin | [<- | []]]; [exact (Hall r Hin Hn)|].
      exfalso. simpl in Hn. apply (Hfresh r0 Hin0). congruence.
  - rewrite GetAvailableNotification_keeps_store. exact Hl.
  - rewrite GetNotification_keeps_store. exact Hl.
  - destruct (pgsql.SetNotificationNotified (pgsql.env ev) n' st) as [st' err] eqn:Hs.
    simpl.
    destruct (SetNotificationNotified_store (pgsql.env ev) n' st) as [Hst | Hrows];
      rewrite Hs in *; simpl in *; [subst st'; exact Hl|].
    apply (leased_update t n st st' (has_name n')
             (set_notified_at (Now (pgsql.env ev)))); try assumption.
    + intros r. reflexivity.
    + intros r. right. exists (Now (pgsql.env ev)). split; [reflexivity|exact Hclock].
  - destruct (pgsql.DeleteNotification (pgsql.env ev) n' st) as [st' err] eqn:Hs.
    simpl.
    destruct (DeleteNotification_store (pgsql.env ev) n' st) as [Hst | Hrows];
      rewrite Hs in *; simpl in *; [subst st'; exact Hl|].
    apply (leased_update t n st st' (deletable n')
             (set_deleted_at (Now (pgsql.env ev)))); try assumption.
    + intros r. reflexivity.
    + intros r. left. reflexivity.
Qed.

Lemma steps_leased (t : Time) (n : string) (evs : list pgsql.Event) (st : Store) :
  List.Forall (fun ev => t <= Now (pgsql.env ev)) evs →
  leased t n st → leased t n (fst (pgsql.steps evs st)).
Proof.
  revert st. induction evs as [|ev evs IH]; intros st Hclock Hl; simpl.
  - exact Hl.
  - inversion Hclock as [|? ? Hev Hevs]; subst.
    pose proof (step_leased t n ev st Hev Hl) as Hl1.
    destruct (pgsql.step ev st) as [st1 r]. simpl in Hl1.
    specialize (IH st1 Hevs Hl1).
    destruct (pgsql.steps evs st1) as [st2 rs]. exact IH.
Qed.

(** The mark of an existing name starts the lease. *)
Lemma mark_leases (e : Env) (n : string) (st : Store) :
  fault e = None → (∃ r, In r (rows st) ∧ name r = n) →
  leased (Now e) n (fst (pgsql.SetNotificationNotified e n st)).
Proof.
  intros Hf [r0 [Hin0 Hn0]]. split.
  - exists (set_notified_at (Now e) r0). split; [|exact Hn0].
    apply marked_rows; [exact Hf|]. exists r0. split; [exact Hin0|].
    assert (Hp : has_name n r0 = true) by (apply has_name_true; exact Hn0).
    rewrite Hp. reflexivity.
  - intros r Hin Hn. exists (Now e).
    split; [exact (marked_named e n st r Hf Hin Hn)|lia].
Qed.

(** While the lease runs the name is not handed out. *)
Lemma leased_withheld (t : Time) (n : string) (e : Env) (d : Duration) (st : Store) :
  negatable d → leased t n st → Now e - t <= d →
  ¬ hands_out n (snd (pgsql.GetAvailableNotification e d st)).
Proof.
  intros Hd [_ Hall] Hel [Herr Hname].
  destruct (fault e) as [msg|] eqn:Hf.
  - rewrite (GetAvailableNotification_fault e d st msg Hf) in Herr.
    discriminate Herr.
  - destruct (snd (pgsql.GetAvailableNotification e d st)) as [v err] eqn:Hget.
    simpl in Herr, Hname. subst err.
    apply GetAvailableNotification_sound in Hget as [r [Hin [Hq ->]]];
      try assumption.
    simpl in Hname. destruct (Hall r Hin Hname) as [t' [Ht' Hle]].
    destruct Hq as (_ & _ & [Habs | [t'' [Ht'' Hlt]]]); [congruence|].
    rewrite Ht' in Ht''. injection Ht'' as <-. lia.
Qed.

(** C4, as the code has it.  [GetAvailableNotification] takes no claim of
    its own; what withholds a name from the other callers is the notified
    mark.  After a successful [SetNotificationNotified] of an existing
    name, whatever calls the callers interleave afterwards on a clock
    that does not run backwards, no [GetAvailableNotification] issued
    within the interval since the mark hands that name out. *)
Theorem lease_after_mark (e1 : Env) (n : string) (st : Store)
    (evs : list pgsql.Event) (ev : pgsql.Event) (d : Duration) :
  fault e1 = None →
  (∃ r, In r (rows st) ∧ name r = n) →
  List.Forall (fun ev' => Now e1 <= Now (pgsql.env ev')) evs →
  pgsql.call ev = pgsql.call_GetAvailableNotification d →
  negatable d →
  Now (pgsql.env ev) - Now e1 <= d →
  snd (pgsql.SetNotificationNotified e1 n st) = None ∧
  ¬ hands_out n
      (snd (pgsql.step ev
              (fst (pgsql.steps evs
                      (fst (pgsql.SetNotificationNotified e1 n st)))))).
Proof.
  intros Hf Hex Hclock Hcall Hd Hel.
  split; [rewrite SetNotificationNotified_healthy by exact Hf; reflexivity|].
  pose proof (mark_leases e1 n st Hf Hex) as Hl.
  pose proof (steps_leased (Now e1) n evs _ Hclock Hl) as Hl2.
  unfold pgsql.step. rewrite Hcall.
  apply (leased_withheld (Now e1)); assumption.
Qed.

Lemma lease_after_mark_witness :
  negatable 10 ∧
  ¬ hands_out "a"
      (snd (pgsql.step (poll 2 120 10)
              (fst (pgsql.steps [poll 3 111 10; poll 1 112 10]
                      (fst (pgsql.SetNotificationNotified (clock 110) "a"
                              store_a)))))).
Proof.
  assert (Hd : negatable 10) by (unfold negatable; lia).
  split; [exact Hd|].
  apply (lease_after_mark (clock 110) "a" store_a
           [poll 3 111 10; poll 1 112 10] (poll 2 120 10) 10).
  - reflexivity.
  - exists row_a. split; [left|]; reflexivity.
  - repeat constructor; simpl; lia.
  - reflexivity.
  - exact Hd.
  - simpl. lia.
Defined.

(** Two workers that poll one after the other, one time unit apart and
    with an interval of 10, are both handed the notification named [a];
    nothing the first call does keeps it from the second. *)
Lemma two_callers_same_name :
  pgsql.caller (poll 1 101 10) ≠ pgsql.caller (poll 2 102 10) ∧
  Now (pgsql.env (poll 2 102 10)) - Now (pgsql.env (poll 1 101 10)) < 10 ∧
  ∃ r1 r2,
    snd (pgsql.steps [poll 1 101 10; poll 2 102 10] store_a) = [r1; r2] ∧
    hands_out "a" r1 ∧ hands_out "a" r2.
Proof.
  split; [simpl; lia|]. split; [simpl; lia|].
  eexists _, _. split; [reflexivity|].
  split; split; reflexivity.
Qed.

(** The names stay pairwise distinct under every call. *)
Lemma map_name_update_where (p : NotificationRow → bool)
    (f : NotificationRow → NotificationRow) (l : list NotificationRow) :
  (∀ r, name (f r) = name r) →
  List.map name (update_where p f l) = List.map name l.
Proof.
  intros Hname. unfold update_where. rewrite map_map.
  apply map_ext. intros r. destruct (p r); [apply Hname|reflexivity].
Qed.

Lemma step_unique_names (ev : pgsql.Event) (st : Store) :
  unique_names st → unique_names (fst (pgsql.step ev st)).
Proof.
  intros Hu. unfold pgsql.step, unique_names in *.
  destruct (pgsql.call ev) as [o w | d | n' | n' | n'].
  - destruct (pgsql.CreateNotification (pgsql.env ev) o w st) as [st' err] eqn:Hc.
    simpl.
    destruct (CreateNotification_store (pgsql.env ev) o w st) as [Hst | [Hfresh Hrows]];
      rewrite Hc in *; simpl in *; [subst st'; exact Hu|].
    rewrite Hrows, map_app. simpl.
    apply List.NoDup_app;
      [exact Hu|apply List.NoDup_cons; [intros []|apply List.NoDup_nil]|].
    intros x Hx [<- | []].
    apply in_map_iff in Hx as [r [Hn Hin]]. exact (Hfresh r Hin Hn).
  - rewrite GetAvailableNotification_keeps_store. exact Hu.
  - rewrite GetNotification_keeps_store. exact Hu.
  - destruct (pgsql.SetNotificationNotified (pgsql.env ev) n' st) as [st' err] eqn:Hs.
    simpl.
    destruct (SetNotificationNotified_store (pgsql.env ev) n' st) as [Hst | Hrows];
      rewrite Hs in *; simpl in *; [subst st'; exact Hu|].
    rewrite Hrows, map_name_update_where; [exact Hu|reflexivity].
  - destruct (pgsql.DeleteNotification (pgsql.env ev) n' st) as [st' err] eqn:Hs.
    simpl.
    destruct (DeleteNotification_store (pgsql.env ev) n' st) as [Hst | Hrows];
      rewrite Hs in *; simpl in *; [subst st'; exact Hu|].
    rewrite Hrows, map_name_update_where; [exact Hu|reflexivity].
Qed.

Lemma steps_unique_names (evs : list pgsql.Event) :
  unique_names (fst (pgsql.steps evs Store_empty)).
Proof.
  assert (H : ∀ st, unique_names st → unique_names (fst (pgsql.steps evs st))).
  { induction evs as [|ev evs IH]; intros st Hu; simpl; [exact Hu|].
    pose proof (step_unique_names ev st Hu) as Hu1.
    destruct (pgsql.step ev st) as [st1 r]. simpl in Hu1.
    specialize (IH st1 Hu1).
    destruct (pgsql.steps evs st1) as [st2 rs]. exact IH. }
  apply H. apply List.NoDup_nil.
Qed.

(** ** The Null service *)

(** C5.  The [Null] implementation of [Service] returns
    [BackendException] from [GetAvailableNotification], [GetNotification],
    [SetNotificationNotified] and [DeleteNotification]; its
    [CreateNotification] returns nil and keeps nothing of its input; its
    [Ping] returns true and its [Close] returns. *)
Theorem Null_backend (e : Env) (d : Duration) (n : string) (old new : Model)
    (s : notifications.Null) :
  notifications.GetAvailableNotification e d s =
  (s, (VulnerabilityNotification_zero, Some ErrBackendException)) ∧
  notifications.GetNotification e n s =
  (s, (VulnerabilityNotification_zero, Some ErrBackendException)) ∧
  notifications.SetNotificationNotified e n s = (s, Some ErrBackendException) ∧
  notifications.DeleteNotification e n s = (s, Some ErrBackendException) ∧
  notifications.CreateNotification e old new s = (s, None) ∧
  notifications.Ping s = true ∧
  notifications.Close s = s.
Proof. repeat split. Qed.

(** ** The driver registry *)

Lemma Register_duplicate {ServiceValue : Type} (n : string)
    (d d' : @notifications.Driver ServiceValue)
    (drivers : gmap string (@notifications.Driver ServiceValue)) :
  drivers !! n = Some d' →
  notifications.Register n (Some d) drivers =
  Panics ("notifications: could not register duplicate Driver: " +:+ n).
Proof. intros H. unfold notifications.Register. rewrite H. reflexivity. Qed.

Lemma Register_fresh {ServiceValue : Type} (n : string)
    (d : @notifications.Driver ServiceValue)
    (drivers : gmap string (@notifications.Driver ServiceValue)) :
  drivers !! n = None →
  notifications.Register n (Some d) drivers = Returns (<[n := d]> drivers).
Proof. intros H. unfold notifications.Register. rewrite H. reflexivity. Qed.

(** C9, as the code has it.  [Open] returns an error, and no service, for
    a type that no driver was registered under, and otherwise returns
    what the registered driver builds.  [Register] returns the extended
    registry for a name that is free; it panics when the name is already
    registered, so a second registration of a name panics, and it panics
    for a nil driver. *)
Theorem registry_outcomes {ServiceValue : Type}
    (cfg : notifications.RegistrableComponentConfig) (n : string)
    (d d' : @notifications.Driver ServiceValue)
    (drivers : gmap string (@notifications.Driver ServiceValue)) :
  (drivers !! notifications.Type_ cfg = None →
   notifications.Open cfg drivers =
   Returns (None, Some (Errorf_unknown_Driver "notifications"
                          (notifications.Type_ cfg)))) ∧
  (drivers !! notifications.Type_ cfg = Some d →
   notifications.Open cfg drivers = Returns (d cfg)) ∧
  (drivers !! n = None →
   notifications.Register n (Some d) drivers = Returns (<[n := d]> drivers) ∧
   notifications.Register n (Some d') (<[n := d]> drivers) =
   Panics ("notifications: could not register duplicate Driver: " +:+ n)) ∧
  (is_Some (drivers !! n) →
   notifications.Register n (Some d) drivers =
   Panics ("notifications: could not register duplicate Driver: " +:+ n)) ∧
  notifications.Register n None drivers =
  Panics "notifications: could not register nil Driver".
Proof.
  split; [intros H; unfold notifications.Open, notifications.Driver in *;
          rewrite H; reflexivity|].
  split; [intros H; unfold notifications.Open, notifications.Driver in *;
          rewrite H; reflexivity|].
  split.
  { intros H. split; [exact (Register_fresh n d drivers H)|].
    apply (Register_duplicate n d' d). apply lookup_insert_eq. }
  split; [|reflexivity].
  intros [d0 H]. exact (Register_duplicate n d d0 drivers H).
Qed.

Lemma registry_outcomes_witness :
  (∅ : gmap string (@notifications.Driver notifications.Null)) !! "pgsql" = None ∧
  notifications.Open
    {| notifications.Type_ := "pgsql"; notifications.Options := [] |}
    (∅ : gmap string (@notifications.Driver notifications.Null)) =
  Returns (None, Some (Errorf_unknown_Driver "notifications" "pgsql")) ∧
  notifications.Register "pgsql" (Some null_driver) (<["pgsql" := null_driver]> ∅) =
  Panics "notifications: could not register duplicate Driver: pgsql".
Proof.
  assert (H0 : (∅ : gmap string (@notifications.Driver notifications.Null))
               !! "pgsql" = None) by apply lookup_empty.
  split; [exact H0|].
  pose proof (registry_outcomes
                {| notifications.Type_ := "pgsql"; notifications.Options := [] |}
                "pgsql" null_driver null_driver ∅) as (Hopen & _ & Hreg & _).
  split; [exact (Hopen H0)|].
  exact (proj2 (Hreg H0)).
Defined.

(** The first registration of [pgsql] returns, the second one panics
    instead of returning an error. *)
Lemma Register_twice_panics :
  notifications.Register "pgsql" (Some null_driver) ∅ =
  Returns (<["pgsql" := null_driver]> ∅) ∧
  notifications.Register "pgsql" (Some null_driver)
    (<["pgsql" := null_driver]> ∅) =
  Panics "notifications: could not register duplicate Driver: pgsql" ∧
  ¬ ∃ drivers, notifications.Register "pgsql" (Some null_driver)
                 (<["pgsql" := null_driver]> ∅) = Returns drivers.
Proof.
  assert (Hdup : notifications.Register "pgsql" (Some null_driver)
                   (<["pgsql" := null_driver]> ∅) =
                 Panics "notifications: could not register duplicate Driver: pgsql").
  { apply (Register_duplicate "pgsql" null_driver null_driver).
    apply lookup_insert_eq. }
  split; [apply Register_fresh; apply lookup_empty|].
  split; [exact Hdup|].
  intros [drivers H]. rewrite Hdup in H. discriminate H.
Qed.

(** ** Further properties of the store *)

(** What a successful [GetAvailableNotification] returns is a row of the
    table that passes the availability test. *)
Lemma GetAvailableNotification_row (e : Env) (d : Duration) (st : Store)
    (v : VulnerabilityNotification) :
  snd (pgsql.GetAvailableNotification e d st) = (v, None) →
  ∃ r, In r (rows st) ∧
       available (locked e) (Time_Add (Now e) (Duration_neg d)) r = true ∧
       v = scalars_of_row r.
Proof.
  destruct (fault e) as [msg|] eqn:Hf.
  - rewrite (GetAvailableNotification_fault e d st msg Hf). intros [=].
  - rewrite GetAvailableNotification_healthy by exact Hf. simpl.
    destruct (limit_1 e _) as [r|] eqn:Hl; [|intros [=]].
    intros [= <-]. apply limit_1_In in Hl. apply filter_In in Hl as [Hin Hav].
    exists r. auto.
Qed.

Lemma int_round_trip (x : Z) : is_int x → int_of_int64 (int64_of_int x) = x.
Proof.
  intros Hx. unfold int_of_int64, int64_of_int.
  rewrite (wrap64_small x Hx). exact (wrap64_small x Hx).
Qed.

Lemma inserted_reference (x : Z) :
  is_int x →
  vulnerability_of_column (if x =? 0 then None else Some (int64_of_int x)) =
  if x =? 0 then None else Some (Vulnerability_of_Model {| ID := x |}).
Proof.
  intros Hx. destruct (x =? 0); simpl; [reflexivity|].
  rewrite int_round_trip by exact Hx. reflexivity.
Qed.

(** X1.  Insert and look up: after a successful [CreateNotification],
    [GetNotification] on the UUID drawn for it returns the notification
    just created: the identifier the store assigned, that name,
    [Created] at the instant of the creation, [Notified] and [Deleted] at
    the zero time, and each reference nil when the [ID] passed was 0 and
    otherwise a vulnerability whose [Model] is the one passed and whose
    other fields are empty. *)
Theorem CreateNotification_GetNotification (e e' : Env) (old new : Model)
    (st : Store) :
  fault e = None → fault e' = None →
  (∀ r, In r (rows st) → name r ≠ uuid_New e) →
  is_int (ID old) → is_int (ID new) →
  snd (pgsql.CreateNotification e old new st) = None ∧
  snd (pgsql.GetNotification e' (uuid_New e)
         (fst (pgsql.CreateNotification e old new st))) =
  ({| VulnerabilityNotification_Model := {| ID := next_id st |};
      Name := uuid_New e;
      Created := Now e;
      Notified := Time_zero;
      Deleted := Time_zero;
      OldVulnerability :=
        if ID old =? 0 then None
        else Some {| Vulnerability_Model := old;
                     Vulnerability_Name := EmptyString;
                     Namespace := EmptyString;
                     Description := EmptyString;
                     Link := EmptyString;
                     Severity := EmptyString;
                     FixedIn := [];
                     LayersIntroducingVulnerability := [] |};
      NewVulnerability :=
        if ID new =? 0 then None
        else Some {| Vulnerability_Model := new;
                     Vulnerability_Name := EmptyString;
                     Namespace := EmptyString;
                     Description := EmptyString;
                     Link := EmptyString;
                     Severity := EmptyString;
                     FixedIn := [];
                     LayersIntroducingVulnerability := [] |} |},
   None).
Proof.
  intros Hf Hf' Hfresh Hold Hnew.
  rewrite (CreateNotification_healthy e old new st Hf Hfresh).
  split; [reflexivity|].
  rewrite GetNotification_healthy by exact Hf'. cbn [fst snd rows].
  rewrite (find_has_name_last (uuid_New e) (rows st) (inserted_row e st old new)
             Hfresh eq_refl).
  unfold notification_of_row. cbn [inserted_row id name created_at notified_at
    deleted_at old_vulnerability_id new_vulnerability_id time_of_column].
  rewrite (inserted_reference (ID old) Hold), (inserted_reference (ID new) Hnew).
  destruct old as [o], new as [w]. reflexivity.
Qed.

Lemma CreateNotification_GetNotification_witness :
  is_int 7 ∧ is_int 0 ∧
  snd (pgsql.GetNotification (clock 160) "b"
         (fst (pgsql.CreateNotification (env_at 150 "b") {| ID := 0 |}
                 {| ID := 7 |} store_a))) =
  ({| VulnerabilityNotification_Model := {| ID := 2 |};
      Name := "b"; Created := 150; Notified := 0; Deleted := 0;
      OldVulnerability := None;
      NewVulnerability :=
        Some {| Vulnerability_Model := {| ID := 7 |};
                Vulnerability_Name := EmptyString;
                Namespace := EmptyString;
                Description := EmptyString;
                Link := EmptyString;
                Severity := EmptyString;
                FixedIn := [];
                LayersIntroducingVulnerability := [] |} |}, None).
Proof.
  assert (H7 : is_int 7) by (unfold is_int; lia).
  assert (H0 : is_int 0) by (unfold is_int; lia).
  split; [exact H7|]. split; [exact H0|].
  apply (CreateNotification_GetNotification (env_at 150 "b") (clock 160)
           {| ID := 0 |} {| ID := 7 |} store_a eq_refl eq_refl).
  - intros r [<- | []]. discriminate.
  - exact H0.
  - exact H7.
Defined.

(** X2.  A notification is available as soon as it is created, whatever
    the interval: after a successful [CreateNotification], and unless a
    Lock is held on the new name, [GetAvailableNotification] does not
    report [NotFound]; it hands the new name out under some tie-break,
    and under every tie-break when no older row qualifies. *)
Theorem created_is_available (e e' : Env) (d : Duration) (old new : Model)
    (st : Store) :
  fault e = None → fault e' = None →
  (∀ r, In r (rows st) → name r ≠ uuid_New e) →
  negatable d → locked e' (uuid_New e) = false →
  (∃ v, snd (pgsql.GetAvailableNotification e' d
               (fst (pgsql.CreateNotification e old new st))) = (v, None)) ∧
  (∃ k, hands_out (uuid_New e)
          (snd (pgsql.GetAvailableNotification (with_pick k e') d
                  (fst (pgsql.CreateNotification e old new st))))) ∧
  ((∀ r, In r (rows st) → ¬ qualifies e' d r) →
   hands_out (uuid_New e)
     (snd (pgsql.GetAvailableNotification e' d
             (fst (pgsql.CreateNotification e old new st))))).
Proof.
  intros Hf Hf' Hfresh Hd Hfree.
  rewrite (CreateNotification_healthy e old new st Hf Hfresh). cbn [fst].
  set (st1 := {| rows := rows st ++ [inserted_row e st old new];
                 next_id := next_id st + 1 |}).
  assert (Hin : In (inserted_row e st old new) (rows st1)).
  { simpl. apply in_or_app. right. left. reflexivity. }
  assert (Hq : qualifies e' d (inserted_row e st old new)).
  { split; [exact Hfree|]. split; [reflexivity|]. left. reflexivity. }
  split; [exact (GetAvailableNotification_some e' d st1 _ Hf' Hd Hin Hq)|].
  split.
  - destruct (GetAvailableNotification_complete e' d st1 _ Hf' Hd Hin Hq)
      as [k Hk].
    exists k. unfold hands_out. rewrite Hk. simpl. auto.
  - intros Hnone.
    apply (GetAvailableNotification_only e' d st1 _ (uuid_New e) Hf' Hd Hin Hq).
    intros r' Hin' Hq'. simpl in Hin'.
    apply in_app_or in Hin' as [Hin' | [<- | []]]; [|reflexivity].
    exfalso. exact (Hnone r' Hin' Hq').
Qed.

Lemma created_is_available_witness :
  negatable (-5) ∧
  hands_out "b"
    (snd (pgsql.GetAvailableNotification (clock 150) (-5)
            (fst (pgsql.CreateNotification (env_at 150 "b") {| ID := 0 |}
                    {| ID := 7 |}
                    (fst (pgsql.DeleteNotification (clock 140) "a" store_a)))))).
Proof.
  assert (Hd : negatable (-5)) by (unfold negatable; lia).
  split; [exact Hd|].
  apply (created_is_available (env_at 150 "b") (clock 150) (-5)
           {| ID := 0 |} {| ID := 7 |}
           (fst (pgsql.DeleteNotification (clock 140) "a" store_a))
           eq_refl eq_refl).
  - intros r [<- | []]. discriminate.
  - exact Hd.
  - reflexivity.
  - intros r [<- | []] (_ & Hdel & _). discriminate Hdel.
Defined.

(** X3.  What [GetAvailableNotification] hands out can be looked up: in
    a table with pairwise distinct names, [GetNotification] on the name
    just handed out succeeds and returns the same [ID], [Name], [Created],
    [Notified] and [Deleted]. *)
Theorem available_then_lookup (e e' : Env) (d : Duration) (st : Store)
    (v : VulnerabilityNotification) :
  fault e' = None → unique_names st →
  snd (pgsql.GetAvailableNotification e d st) = (v, None) →
  ∃ w, snd (pgsql.GetNotification e' (Name v)
              (fst (pgsql.GetAvailableNotification e d st))) = (w, None) ∧
       VulnerabilityNotification_Model w = VulnerabilityNotification_Model v ∧
       Name w = Name v ∧ Created w = Created v ∧
       Notified w = Notified v ∧ Deleted w = Deleted v.
Proof.
  intros Hf' Hu Hget.
  rewrite GetAvailableNotification_keeps_store.
  apply GetAvailableNotification_row in Hget as [r (Hin & _ & ->)].
  exists (notification_of_row r).
  rewrite GetNotification_healthy by exact Hf'. simpl.
  rewrite (find_has_name_unique (name r) (rows st) r Hu Hin eq_refl).
  repeat split.
Qed.

Lemma available_then_lookup_witness :
  unique_names store_a ∧
  ∃ w, snd (pgsql.GetNotification (clock 102) "a"
              (fst (pgsql.GetAvailableNotification (clock 101) 10 store_a))) =
       (w, None) ∧ Created w = 100.
Proof.
  assert (Hu : unique_names store_a).
  { unfold unique_names. simpl.
    apply List.NoDup_cons; [intros []|apply List.NoDup_nil]. }
  split; [exact Hu|].
  destruct (available_then_lookup (clock 101) (clock 102) 10 store_a
              (scalars_of_row row_a) eq_refl Hu eq_refl)
    as [w (Hw & _ & _ & Hc & _)].
  exists w. split; [exact Hw|exact Hc].
Defined.

(** *** Deletion is for good *)

Lemma retired_update (n : string) (st st' : Store)
    (p : NotificationRow → bool) (f : NotificationRow → NotificationRow) :
  (∀ r, name (f r) = name r) →
  (∀ r, deleted_at r ≠ None → deleted_at (f r) ≠ None) →
  rows st' = update_where p f (rows st) →
  retired n st → retired n st'.
Proof.
  intros Hname Hdel Hrows [[r0 [Hin0 Hn0]] Hall]. split.
  - exists (if p r0 then f r0 else r0). split.
    + rewrite Hrows. apply In_update_where. exists r0. auto.
    + destruct (p r0); [rewrite Hname|]; exact Hn0.
  - intros r' Hin' Hn'. rewrite Hrows in Hin'.
    apply In_update_where in Hin' as [r [Hin ->]].
    destruct (p r).
    + rewrite Hname in Hn'. apply Hdel. exact (Hall r Hin Hn').
    + exact (Hall r Hin Hn').
Qed.

Lemma step_retired (n : string) (ev : pgsql.Event) (st : Store) :
  retired n st → retired n (fst (pgsql.step ev st)).
Proof.
  intros Hr. unfold pgsql.step.
  destruct (pgsql.call ev) as [o w | d | n' | n' | n'].
  - destruct (pgsql.CreateNotification (pgsql.env ev) o w st) as [st' err] eqn:Hc.
    simpl.
    destruct (CreateNotification_store (pgsql.env ev) o w st) as [Hst | [Hfresh Hrows]];
      rewrite Hc in *; simpl in *; [subst st'; exact Hr|].
    destruct Hr as [[r0 [Hin0 Hn0]] Hall]. split.
    + exists r0. split; [|exact Hn0]. rewrite Hrows. apply in_or_app. auto.
    + intros r Hin Hn. rewrite Hrows in Hin.
      apply in_app_or in Hin as [Hin | [<- | []]]; [exact (Hall r Hin Hn)|].
      exfalso. simpl in Hn. apply (Hfresh r0 Hin0). congruence.
  - rewrite GetAvailableNotification_keeps_store. exact Hr.
  - rewrite GetNotification_keeps_store. exact Hr.
  - destruct (pgsql.SetNotificationNotified (pgsql.env ev) n' st) as [st' err] eqn:Hs.
    simpl.
    destruct (SetNotificationNotified_store (pgsql.env ev) n' st) as [Hst | Hrows];
      rewrite Hs in *; simpl in *; [subst st'; exact Hr|].
    apply (retired_update n st st' (has_name n')
             (set_notified_at (Now (pgsql.env ev)))); try assumption.
    + intros r. reflexivity.
    + intros r H. exact H.
  - destruct (pgsql.DeleteNotification (pgsql.env ev) n' st) as [st' err] eqn:Hs.
    simpl.
    destruct (DeleteNotification_store (pgsql.env ev) n' st) as [Hst | Hrows];
      rewrite Hs in *; simpl in *; [subst st'; exact Hr|].
    apply (retired_update n st st' (deletable n')
             (set_deleted_at (Now (pgsql.env ev)))); try assumption.
    + intros r. reflexivity.
    + intros r _. discriminate.
Qed.

Lemma steps_retired (n : string) (evs : list pgsql.Event) (st : Store) :
  retired n st → retired n (fst (pgsql.steps evs st)).
Proof.
  revert st. induction evs as [|ev evs IH]; intros st Hr; simpl; [exact Hr|].
  pose proof (step_retired n ev st Hr) as Hr1.
  destruct (pgsql.step ev st) as [st1 r]. simpl in Hr1.
  specialize (IH st1 Hr1).
  destruct (pgsql.steps evs st1) as [st2 rs]. exact IH.
Qed.

Lemma count_where_positive (p : NotificationRow → bool) (l : list NotificationRow) :
  0 < count_where p l → ∃ r, In r l ∧ p r = true.
Proof.
  unfold count_where. intros Hpos.
  destruct (List.filter p l) as [|r l'] eqn:Hfl; [simpl in Hpos; lia|].
  assert (Hin : In r (List.filter p l)) by (rewrite Hfl; left; reflexivity).
  apply filter_In in Hin. exists r. exact Hin.
Qed.

(** A delete that returns nil has retired the name. *)
Lemma delete_retires (e : Env) (n : string) (st : Store) :
  snd (pgsql.DeleteNotification e n st) = None →
  retired n (fst (pgsql.DeleteNotification e n st)).
Proof.
  intros Herr.
  destruct (fault e) as [msg|] eqn:Hf.
  { rewrite (DeleteNotification_fault e n st msg Hf) in Herr. discriminate Herr. }
  destruct (rows_affected_fault e) as [msg|] eqn:Hr.
  { unfold pgsql.DeleteNotification, Exec, run, RowsAffected in Herr.
    rewrite Hf, Hr in Herr. discriminate Herr. }
  rewrite (DeleteNotification_healthy e n st (conj Hf Hr)) in *. simpl in *.
  destruct (Z.leb_spec (count_where (deletable n) (rows st)) 0) as [Hle | Hgt];
    [discriminate Herr|].
  apply count_where_positive in Hgt as [r0 [Hin0 Hp0]]. split.
  - exists (set_deleted_at (Now e) r0). split.
    + apply In_update_where. exists r0. rewrite Hp0. auto.
    + simpl. apply deletable_true in Hp0. tauto.
  - intros r' Hin' Hn'. apply In_update_where in Hin' as [r [Hin ->]].
    destruct (deletable n r) eqn:Hp; [discriminate|].
    intros Hnull.
    assert (Hp' : deletable n r = true) by (apply deletable_true; auto).
    congruence.
Qed.

Lemma retired_withheld (n : string) (e : Env) (d : Duration) (st : Store) :
  retired n st → ¬ hands_out n (snd (pgsql.GetAvailableNotification e d st)).
Proof.
  intros [_ Hall] [Herr Hname].
  destruct (snd (pgsql.GetAvailableNotification e d st)) as [v err] eqn:Hget.
  simpl in Herr, Hname. subst err.
  apply GetAvailableNotification_row in Hget as [r (Hin & Hav & ->)].
  simpl in Hname. apply (Hall r Hin Hname).
  unfold available in Hav. rewrite !andb_true_iff in Hav.
  destruct Hav as [[_ Hnull] _]. apply is_null_true. exact Hnull.
Qed.

(** X4.  Deletion is for good.  After a [DeleteNotification] that
    returned nil, whatever calls follow, in whatever order and at
    whatever clock readings: no [GetAvailableNotification] hands the name
    out again; [GetNotification] still finds a notification of that name,
    a deleted one; and a further [DeleteNotification] of the name reports
    [NotFound]. *)
Theorem deleted_stays_deleted (e1 : Env) (n : string) (st : Store)
    (evs : list pgsql.Event) (ev : pgsql.Event) :
  snd (pgsql.DeleteNotification e1 n st) = None →
  (∀ d, pgsql.call ev = pgsql.call_GetAvailableNotification d →
        ¬ hands_out n
            (snd (pgsql.step ev
                    (fst (pgsql.steps evs
                            (fst (pgsql.DeleteNotification e1 n st))))))) ∧
  (pgsql.call ev = pgsql.call_GetNotification n → fault (pgsql.env ev) = None →
   ∃ r, snd (pgsql.step ev
               (fst (pgsql.steps evs (fst (pgsql.DeleteNotification e1 n st))))) =
        (notification_of_row r, None) ∧
        name r = n ∧ deleted_at r ≠ None) ∧
  (pgsql.call ev = pgsql.call_DeleteNotification n → healthy (pgsql.env ev) →
   snd (snd (pgsql.step ev
               (fst (pgsql.steps evs (fst (pgsql.DeleteNotification e1 n st))))))
   = Some ErrNotFound).
Proof.
  intros Herr.
  pose proof (steps_retired n evs _ (delete_retires e1 n st Herr)) as Hr.
  set (st2 := fst (pgsql.steps evs (fst (pgsql.DeleteNotification e1 n st)))) in *.
  split; [|split].
  - intros d Hcall. unfold pgsql.step. rewrite Hcall.
    apply retired_withheld. exact Hr.
  - intros Hcall Hf. unfold pgsql.step. rewrite Hcall.
    rewrite GetNotification_healthy by exact Hf. simpl.
    destruct Hr as [[r0 [Hin0 Hn0]] Hall].
    destruct (List.find (has_name n) (rows st2)) as [r|] eqn:Hfind.
    + apply find_has_name_Some in Hfind as [Hin Hn].
      exists r. split; [reflexivity|]. split; [exact Hn|exact (Hall r Hin Hn)].
    + exfalso. exact (proj1 (find_has_name_None n (rows st2)) Hfind r0 Hin0 Hn0).
  - intros Hcall Hh. unfold pgsql.step. rewrite Hcall.
    rewrite (DeleteNotification_healthy (pgsql.env ev) n st2 Hh). simpl.
    assert (Hle : count_where (deletable n) (rows st2) <= 0).
    { apply count_where_zero. intros r Hin.
      destruct (deletable n r) eqn:Hp; [|reflexivity].
      apply deletable_true in Hp as [Hn Hnull].
      exfalso. exact (proj2 Hr r Hin Hn Hnull). }
    apply Z.leb_le in Hle. rewrite Hle. reflexivity.
Qed.

Lemma deleted_stays_deleted_witness :
  snd (pgsql.DeleteNotification (clock 130) "a" store_a) = None ∧
  ¬ hands_out "a"
      (snd (pgsql.step (poll 2 500 10)
              (fst (pgsql.steps [mark 1 140 "a"; create 3 150 "b" 0 7]
                      (fst (pgsql.DeleteNotification (clock 130) "a" store_a)))))).
Proof.
  split; [reflexivity|].
  destruct (deleted_stays_deleted (clock 130) "a" store_a
              [mark 1 140 "a"; create 3 150 "b" 0 7] (poll 2 500 10) eq_refl)
    as (H & _ & _).
  exact (H 10 eq_refl).
Defined.

(** *** What the calls keep of a notification *)

Lemma evolves_refl (r : NotificationRow) : evolves r r.
Proof. unfold evolves. repeat split; auto. Qed.

Lemma evolves_trans (r1 r2 r3 : NotificationRow) :
  evolves r1 r2 → evolves r2 r3 → evolves r1 r3.
Proof.
  intros (Hi & Hn & Hc & Ho & Hw & Hd & Ht) (Hi' & Hn' & Hc' & Ho' & Hw' & Hd' & Ht').
  unfold evolves. repeat split; try congruence.
  - intros t Hdel. apply Hd'. apply Hd. exact Hdel.
  - intros Hnot. apply Ht'. apply Ht. exact Hnot.
Qed.

Lemma nth_error_update_where (p : NotificationRow → bool)
    (f : NotificationRow → NotificationRow) (l : list NotificationRow)
    (k : nat) (r : NotificationRow) :
  nth_error l k = Some r →
  nth_error (update_where p f l) k = Some (if p r then f r else r).
Proof.
  intros H. unfold update_where. rewrite nth_error_map, H. reflexivity.
Qed.

Lemma step_evolves (ev : pgsql.Event) (st : Store) (k : nat) (r : NotificationRow) :
  nth_error (rows st) k = Some r →
  ∃ r', nth_error (rows (fst (pgsql.step ev st))) k = Some r' ∧ evolves r r'.
Proof.
  intros Hk. unfold pgsql.step.
  destruct (pgsql.call ev) as [o w | d | n' | n' | n'].
  - destruct (pgsql.CreateNotification (pgsql.env ev) o w st) as [st' err] eqn:Hc.
    simpl.
    destruct (CreateNotification_store (pgsql.env ev) o w st) as [Hst | [_ Hrows]];
      rewrite Hc in *; simpl in *.
    + subst st'. exists r. split; [exact Hk|apply evolves_refl].
    + exists r. split; [|apply evolves_refl]. rewrite Hrows.
      rewrite nth_error_app1; [exact Hk|].
      apply nth_error_Some. congruence.
  - rewrite GetAvailableNotification_keeps_store.
    exists r. split; [exact Hk|apply evolves_refl].
  - rewrite GetNotification_keeps_store.
    exists r. split; [exact Hk|apply evolves_refl].
  - destruct (pgsql.SetNotificationNotified (pgsql.env ev) n' st) as [st' err] eqn:Hs.
    simpl.
    destruct (SetNotificationNotified_store (pgsql.env ev) n' st) as [Hst | Hrows];
      rewrite Hs in *; simpl in *.
    + subst st'. exists r. split; [exact Hk|apply evolves_refl].
    + rewrite Hrows. eexists. split; [apply nth_error_update_where; exact Hk|].
      destruct (has_name n' r); [|apply evolves_refl].
      unfold evolves. simpl. repeat split; auto; discriminate.
  - destruct (pgsql.DeleteNotification (pgsql.env ev) n' st) as [st' err] eqn:Hs.
    simpl.
    destruct (DeleteNotification_store (pgsql.env ev) n' st) as [Hst | Hrows];
      rewrite Hs in *; simpl in *.
    + subst st'. exists r. split; [exact Hk|apply evolves_refl].
    + rewrite Hrows. eexists. split; [apply nth_error_update_where; exact Hk|].
      destruct (deletable n' r) eqn:Hp; [|apply evolves_refl].
      apply deletable_true in Hp as [_ Hnull].
      unfold evolves. simpl. repeat split; auto.
      intros t Ht. congruence.
Qed.

(** X5.  No call removes a notification or rewrites what identifies it.
    Through any sequence of calls, the row at a given position of the
    table stays at that position and keeps its identifier, name, creation
    time and both references; a deletion time, once set, is never
    changed; and a notification that was notified stays so. *)
Theorem notifications_persist (evs : list pgsql.Event) (st : Store) (k : nat)
    (r : NotificationRow) :
  nth_error (rows st) k = Some r →
  ∃ r', nth_error (rows (fst (pgsql.steps evs st))) k = Some r' ∧ evolves r r'.
Proof.
  revert st r. induction evs as [|ev evs IH]; intros st r Hk; simpl.
  - exists r. split; [exact Hk|apply evolves_refl].
  - destruct (step_evolves ev st k r Hk) as [r1 [Hk1 He1]].
    destruct (pgsql.step ev st) as [st1 rp]. simpl in Hk1.
    destruct (IH st1 r1 Hk1) as [r2 [Hk2 He2]].
    destruct (pgsql.steps evs st1) as [st2 rs]. simpl in *.
    exists r2. split; [exact Hk2|exact (evolves_trans r r1 r2 He1 He2)].
Qed.

Lemma notifications_persist_witness :
  nth_error (rows store_a) 0 = Some row_a ∧
  ∃ r', nth_error
          (rows (fst (pgsql.steps [mark 1 140 "a"; erase 2 150 "a";
                                   create 3 160 "b" 0 7; erase 2 170 "a"]
                        store_a))) 0 = Some r' ∧
        name r' = "a" ∧ created_at r' = 100.
Proof.
  split; [reflexivity|].
  destruct (notifications_persist [mark 1 140 "a"; erase 2 150 "a";
                                   create 3 160 "b" 0 7; erase 2 170 "a"]
              store_a 0 row_a eq_refl) as [r' (Hk & _ & Hn & Hc & _)].
  exists r'. split; [exact Hk|]. split; [exact Hn|exact Hc].
Defined.

(** *** Errors and effects *)

Lemma Store_eta (st : Store) :
  {| rows := rows st; next_id := next_id st |} = st.
Proof. destruct st. reflexivity. Qed.

(** X6.  A call that reports an error has changed nothing, as long as
    [RowsAffected] itself does not fail: the table after the call is the
    table before it.  The one exception is in [DeleteNotification]: when
    the statement succeeds and [RowsAffected] fails, the call reports
    [BackendException] although every live row of that name has been
    deleted. *)
Theorem errors_and_effects (ev : pgsql.Event) (st : Store) (e : Env)
    (n msg : string) :
  (rows_affected_fault (pgsql.env ev) = None →
   snd (snd (pgsql.step ev st)) ≠ None →
   fst (pgsql.step ev st) = st) ∧
  (fault e = None → rows_affected_fault e = Some msg →
   snd (pgsql.DeleteNotification e n st) = Some ErrBackendException ∧
   ∀ r, In r (rows st) → name r = n → deleted_at r = None →
        In (set_deleted_at (Now e) r)
           (rows (fst (pgsql.DeleteNotification e n st)))).
Proof.
  split.
  - intros Hraf Herr. unfold pgsql.step in *.
    destruct (pgsql.call ev) as [o w | d | n' | n' | n'].
    + destruct (CreateNotification_cases (pgsql.env ev) o w st)
        as [(_ & _ & Hc) | [_ Hc]]; rewrite Hc in *; simpl in *;
        [contradiction|reflexivity].
    + apply GetAvailableNotification_keeps_store.
    + apply GetNotification_keeps_store.
    + destruct (fault (pgsql.env ev)) as [m|] eqn:Hf.
      * rewrite (SetNotificationNotified_fault _ n' st m Hf). reflexivity.
      * rewrite (SetNotificationNotified_healthy _ n' st Hf) in Herr.
        simpl in Herr. contradiction.
    + destruct (fault (pgsql.env ev)) as [m|] eqn:Hf.
      * rewrite (DeleteNotification_fault _ n' st m Hf). reflexivity.
      * rewrite (DeleteNotification_healthy _ n' st (conj Hf Hraf)) in *.
        simpl in *.
        destruct (Z.leb_spec (count_where (deletable n') (rows st)) 0)
          as [Hle | Hgt]; [|contradiction].
        pose proof (proj1 (count_where_zero _ _) Hle) as Hnone.
        rewrite update_where_none by exact Hnone. apply Store_eta.
  - intros Hf Hraf.
    unfold pgsql.DeleteNotification, Exec, run, RowsAffected.
    rewrite Hf, Hraf. simpl. split; [reflexivity|].
    intros r Hin Hn Hnull. apply In_update_where. exists r.
    assert (Hp : deletable n r = true) by (apply deletable_true; auto).
    rewrite Hp. auto.
Qed.

Lemma errors_and_effects_witness :
  rows_affected_fault (pgsql.env (erase 1 130 "zz")) = None ∧
  snd (snd (pgsql.step (erase 1 130 "zz") store_a)) ≠ None ∧
  fst (pgsql.step (erase 1 130 "zz") store_a) = store_a.
Proof.
  assert (Herr : snd (snd (pgsql.step (erase 1 130 "zz") store_a)) ≠ None)
    by discriminate.
  split; [reflexivity|]. split; [exact Herr|].
  exact (proj1 (errors_and_effects (erase 1 130 "zz") store_a (clock 0)
                  "a" "a") eq_refl Herr).
Defined.

(** *** Marks and deletions, looked up *)




(** *** An abandoned claim heals *)

Lemma step_keeps_row (ev : pgsql.Event) (st : Store) (r : NotificationRow) :
  idle_on (name r) ev → In r (rows st) → In r (rows (fst (pgsql.step ev st))).
Proof.
  intros [Hmark Hdel] Hin. unfold pgsql.step.
  destruct (pgsql.call ev) as [o w | d | n' | n' | n'].
  - destruct (pgsql.CreateNotification (pgsql.env ev) o w st) as [st' err] eqn:Hc.
    simpl.
    destruct (CreateNotification_store (pgsql.env ev) o w st) as [Hst | [_ Hrows]];
      rewrite Hc in *; simpl in *; [subst st'; exact Hin|].
    rewrite Hrows. apply in_or_app. auto.
  - rewrite GetAvailableNotification_keeps_store. exact Hin.
  - rewrite GetNotification_keeps_store. exact Hin.
  - destruct (pgsql.SetNotificationNotified (pgsql.env ev) n' st) as [st' err] eqn:Hs.
    simpl.
    destruct (SetNotificationNotified_store (pgsql.env ev) n' st) as [Hst | Hrows];
      rewrite Hs in *; simpl in *; [subst st'; exact Hin|].
    rewrite Hrows. apply In_update_where. exists r. split; [exact Hin|].
    assert (Hp : has_name n' r = false).
    { apply has_name_false. intros Heq. apply Hmark. congruence. }
    rewrite Hp. reflexivity.
  - destruct (pgsql.DeleteNotification (pgsql.env ev) n' st) as [st' err] eqn:Hs.
    simpl.
    destruct (DeleteNotification_store (pgsql.env ev) n' st) as [Hst | Hrows];
      rewrite Hs in *; simpl in *; [subst st'; exact Hin|].
    rewrite Hrows. apply In_update_where. exists r. split; [exact Hin|].
    assert (Hp : deletable n' r = false).
    { destruct (deletable n' r) eqn:Hp; [|reflexivity].
      apply deletable_true in Hp as [Heq _]. exfalso. apply Hdel. congruence. }
    rewrite Hp. reflexivity.
Qed.

Lemma steps_keep_row (evs : list pgsql.Event) (st : Store) (r : NotificationRow) :
  List.Forall (idle_on (name r)) evs →
  In r (rows st) → In r (rows (fst (pgsql.steps evs st))).
Proof.
  revert st. induction evs as [|ev evs IH]; intros st Hidle Hin; simpl;
    [exact Hin|].
  inversion Hidle as [|? ? Hev Hevs]; subst.
  pose proof (step_keeps_row ev st r Hev Hin) as Hin1.
  destruct (pgsql.step ev st) as [st1 rp]. simpl in Hin1.
  specialize (IH st1 Hevs Hin1).
  destruct (pgsql.steps evs st1) as [st2 rs]. exact IH.
Qed.

(** X8.  An abandoned claim heals by time alone.  After a successful
    [SetNotificationNotified] of a live notification, if no later call
    marks or deletes that name (the consumer that claimed it is gone),
    then whatever else is called in between, a
    [GetAvailableNotification] issued more than the interval after the
    mark, with no Lock on the name, does not report [NotFound] and hands
    the name out under some tie-break. *)
Theorem abandoned_claim_heals (e1 : Env) (n : string) (st : Store)
    (r : NotificationRow) (evs : list pgsql.Event) (e2 : Env) (d : Duration) :
  fault e1 = None → In r (rows st) → name r = n → deleted_at r = None →
  List.Forall (idle_on n) evs →
  fault e2 = None → negatable d → locked e2 n = false →
  Now e2 - Now e1 > d →
  (∃ v, snd (pgsql.GetAvailableNotification e2 d
               (fst (pgsql.steps evs
                       (fst (pgsql.SetNotificationNotified e1 n st))))) =
        (v, None)) ∧
  (∃ k, hands_out n
          (snd (pgsql.GetAvailableNotification (with_pick k e2) d
                  (fst (pgsql.steps evs
                          (fst (pgsql.SetNotificationNotified e1 n st))))))).
Proof.
  intros Hf1 Hin Hn Hnull Hidle Hf2 Hd Hfree Hel.
  rewrite <- Hn in Hfree.
  destruct (marked_qualifies_again e1 e2 d st r Hf1 Hel Hin Hnull Hfree)
    as [Hin1 Hq]. rewrite Hn in Hin1.
  assert (Hin2 : In (set_notified_at (Now e1) r)
                    (rows (fst (pgsql.steps evs
                                  (fst (pgsql.SetNotificationNotified e1 n st)))))).
  { apply steps_keep_row; [|exact Hin1]. simpl. rewrite Hn. exact Hidle. }
  split.
  - exact (GetAvailableNotification_some e2 d _ _ Hf2 Hd Hin2 Hq).
  - destruct (GetAvailableNotification_complete e2 d _ _ Hf2 Hd Hin2 Hq)
      as [k Hk].
    exists k. unfold hands_out. rewrite Hk. simpl. auto.
Qed.

Lemma abandoned_claim_heals_witness :
  negatable 10 ∧
  List.Forall (idle_on "a") [create 3 112 "b" 0 7; mark 3 113 "b"] ∧
  ∃ k, hands_out "a"
         (snd (pgsql.GetAvailableNotification (with_pick k (clock 121)) 10
                 (fst (pgsql.steps [create 3 112 "b" 0 7; mark 3 113 "b"]
                         (fst (pgsql.SetNotificationNotified (clock 110) "a"
                                 store_a)))))).
Proof.
  assert (Hd : negatable 10) by (unfold negatable; lia).
  assert (Hidle : List.Forall (idle_on "a")
                    [create 3 112 "b" 0 7; mark 3 113 "b"]).
  { repeat constructor; simpl; discriminate. }
  split; [exact Hd|]. split; [exact Hidle|].
  apply (abandoned_claim_heals (clock 110) "a" store_a row_a
           [create 3 112 "b" 0 7; mark 3 113 "b"] (clock 121) 10
           eq_refl (or_introl eq_refl) eq_refl eq_refl Hidle eq_refl Hd eq_refl).
  simpl. lia.
Defined.

(** *** Marks only move forward *)

Lemma step_marks_until (t : Time) (ev : pgsql.Event) (st : Store) :
  marks_until t st → t <= Now (pgsql.env ev) →
  marks_until (Now (pgsql.env ev)) (fst (pgsql.step ev st)).
Proof.
  intros Hm Hclock.
  assert (Hold : marks_until (Now (pgsql.env ev)) st).
  { intros r a Hin Ha. pose proof (Hm r a Hin Ha). lia. }
  unfold pgsql.step.
  destruct (pgsql.call ev) as [o w | d | n' | n' | n'].
  - destruct (pgsql.CreateNotification (pgsql.env ev) o w st) as [st' err] eqn:Hc.
    simpl.
    destruct (CreateNotification_store (pgsql.env ev) o w st) as [Hst | [_ Hrows]];
      rewrite Hc in *; simpl in *; [subst st'; exact Hold|].
    intros r a Hin Ha. rewrite Hrows in Hin.
    apply in_app_or in Hin as [Hin | [<- | []]]; [exact (Hold r a Hin Ha)|].
    discriminate Ha.
  - rewrite GetAvailableNotification_keeps_store. exact Hold.
  - rewrite GetNotification_keeps_store. exact Hold.
  - destruct (pgsql.SetNotificationNotified (pgsql.env ev) n' st) as [st' err] eqn:Hs.
    simpl.
    destruct (SetNotificationNotified_store (pgsql.env ev) n' st) as [Hst | Hrows];
      rewrite Hs in *; simpl in *; [subst st'; exact Hold|].
    intros r' a Hin' Ha. rewrite Hrows in Hin'.
    apply In_update_where in Hin' as [r [Hin ->]].
    destruct (has_name n' r); [|exact (Hold r a Hin Ha)].
    simpl in Ha. injection Ha as <-. lia.
  - destruct (pgsql.DeleteNotification (pgsql.env ev) n' st) as [st' err] eqn:Hs.
    simpl.
    destruct (DeleteNotification_store (pgsql.env ev) n' st) as [Hst | Hrows];
      rewrite Hs in *; simpl in *; [subst st'; exact Hold|].
    intros r' a Hin' Ha. rewrite Hrows in Hin'.
    apply In_update_where in Hin' as [r [Hin ->]].
    destruct (deletable n' r); exact (Hold r a Hin Ha).
Qed.

Lemma step_forward (t : Time) (ev : pgsql.Event) (st : Store) (k : nat)
    (r : NotificationRow) :
  marks_until t st → t <= Now (pgsql.env ev) →
  nth_error (rows st) k = Some r →
  ∃ r', nth_error (rows (fst (pgsql.step ev st))) k = Some r' ∧
        ∀ a, notified_at r = Some a → ∃ b, notified_at r' = Some b ∧ a <= b.
Proof.
  intros Hm Hclock Hk.
  assert (Hsame : ∀ a, notified_at r = Some a →
                       ∃ b, notified_at r = Some b ∧ a <= b).
  { intros a Ha. exists a. split; [exact Ha|lia]. }
  unfold pgsql.step.
  destruct (pgsql.call ev) as [o w | d | n' | n' | n'].
  - destruct (pgsql.CreateNotification (pgsql.env ev) o w st) as [st' err] eqn:Hc.
    simpl.
    destruct (CreateNotification_store (pgsql.env ev) o w st) as [Hst | [_ Hrows]];
      rewrite Hc in *; simpl in *.
    + subst st'. exists r. auto.
    + exists r. split; [|exact Hsame]. rewrite Hrows.
      rewrite nth_error_app1; [exact Hk|].
      apply nth_error_Some. congruence.
  - rewrite GetAvailableNotification_keeps_store. exists r. auto.
  - rewrite GetNotification_keeps_store. exists r. auto.
  - destruct (pgsql.SetNotificationNotified (pgsql.env ev) n' st) as [st' err] eqn:Hs.
    simpl.
    destruct (SetNotificationNotified_store (pgsql.env ev) n' st) as [Hst | Hrows];
      rewrite Hs in *; simpl in *.
    + subst st'. exists r. auto.
    + rewrite Hrows. eexists. split; [apply nth_error_update_where; exact Hk|].
      destruct (has_name n' r); [|exact Hsame].
      intros a Ha. exists (Now (pgsql.env ev)). split; [reflexivity|].
      assert (Hin : In r (rows st)) by (eapply nth_error_In; exact Hk).
      pose proof (Hm r a Hin Ha). lia.
  - destruct (pgsql.DeleteNotification (pgsql.env ev) n' st) as [st' err] eqn:Hs.
    simpl.
    destruct (DeleteNotification_store (pgsql.env ev) n' st) as [Hst | Hrows];
      rewrite Hs in *; simpl in *.
    + subst st'. exists r. auto.
    + rewrite Hrows. eexists. split; [apply nth_error_update_where; exact Hk|].
      destruct (deletable n' r); exact Hsame.
Qed.

Lemma last_default_irrelevant (x : Time) (l : list Time) (d d' : Time) :
  List.last (x :: l) d = List.last (x :: l) d'.
Proof.
  revert x. induction l as [|y l IH]; intros x; [reflexivity|].
  change (List.last (y :: l) d = List.last (y :: l) d'). apply IH.
Qed.

(** X9.  [Notified] only moves forward.  On a clock that does not run
    backwards, starting from a table none of whose marks lies in the
    future, the mark of a notification after any sequence of calls is
    its mark of before or a later one, and no mark of the table lies
    after the last clock reading. *)
Theorem marks_move_forward (evs : list pgsql.Event) (t : Time) (st : Store)
    (k : nat) (r : NotificationRow) (a : Time) :
  marks_until t st → clock_from t evs →
  nth_error (rows st) k = Some r → notified_at r = Some a →
  ∃ r' b, nth_error (rows (fst (pgsql.steps evs st))) k = Some r' ∧
          notified_at r' = Some b ∧ a <= b ∧
          marks_until (List.last (List.map (fun ev => Now (pgsql.env ev)) evs) t)
                      (fst (pgsql.steps evs st)).
Proof.
  revert t st r a. induction evs as [|ev evs IH]; intros t st r a Hm Hc Hk Ha.
  - simpl. exists r, a. repeat split; [exact Hk|exact Ha|lia|exact Hm].
  - destruct Hc as [Hclock Hc].
    destruct (step_forward t ev st k r Hm Hclock Hk) as [r1 [Hk1 Hf1]].
    destruct (Hf1 a Ha) as [b1 [Hb1 Hle1]].
    pose proof (step_marks_until t ev st Hm Hclock) as Hm1.
    cbn [pgsql.steps].
    destruct (pgsql.step ev st) as [st1 rp]. cbn [fst] in Hk1, Hm1.
    destruct (IH (Now (pgsql.env ev)) st1 r1 b1 Hm1 Hc Hk1 Hb1)
      as [r2 [b2 (Hk2 & Hb2 & Hle2 & Hm2)]].
    destruct (pgsql.steps evs st1) as [st2 rs]. cbn [fst] in *.
    exists r2, b2. split; [exact Hk2|]. split; [exact Hb2|]. split; [lia|].
    cbn [List.map]. destruct evs as [|ev' evs']; [exact Hm2|].
    cbn [List.map] in *.
    change (marks_until
              (List.last (Now (pgsql.env ev')
                          :: List.map (fun ev => Now (pgsql.env ev)) evs') t)
              st2).
    rewrite (last_default_irrelevant (Now (pgsql.env ev')) _ t
               (Now (pgsql.env ev))).
    exact Hm2.
Qed.

Lemma marks_move_forward_witness :
  marks_until 100 (fst (pgsql.SetNotificationNotified (clock 100) "a" store_a)) ∧
  clock_from 100 [poll 2 105 10; mark 1 110 "a"; erase 1 120 "a"] ∧
  ∃ r' b,
    nth_error
      (rows (fst (pgsql.steps [poll 2 105 10; mark 1 110 "a"; erase 1 120 "a"]
                    (fst (pgsql.SetNotificationNotified (clock 100) "a"
                            store_a))))) 0 = Some r' ∧
    notified_at r' = Some b ∧ 100 <= b.
Proof.
  assert (Hm : marks_until 100
                 (fst (pgsql.SetNotificationNotified (clock 100) "a" store_a))).
  { intros r t' [<- | []] [= <-]. lia. }
  assert (Hc : clock_from 100 [poll 2 105 10; mark 1 110 "a"; erase 1 120 "a"]).
  { simpl. lia. }
  split; [exact Hm|]. split; [exact Hc|].
  destruct (marks_move_forward
              [poll 2 105 10; mark 1 110 "a"; erase 1 120 "a"] 100
              (fst (pgsql.SetNotificationNotified (clock 100) "a" store_a))
              0 (set_notified_at 100 row_a) 100 Hm Hc eq_refl eq_refl)
    as [r' [b (Hk & Hb & Hle & _)]].
  exists r', b. auto.
Defined.

(** *** Names and identifiers stay distinct *)

Lemma map_id_update_where (p : NotificationRow → bool)
    (f : NotificationRow → NotificationRow) (l : list NotificationRow) :
  (∀ r, id (f r) = id r) →
  List.map id (update_where p f l) = List.map id l.
Proof.
  intros Hid. unfold update_where. rewrite map_map.
  apply map_ext. intros r. destruct (p r); [apply Hid|reflexivity].
Qed.

(** A call keeps the identifiers and the sequence, or appends the next
    identifier and advances the sequence by one. *)
Lemma step_numbering (ev : pgsql.Event) (st : Store) :
  (List.map id (rows (fst (pgsql.step ev st))) = List.map id (rows st) ∧
   next_id (fst (pgsql.step ev st)) = next_id st) ∨
  (List.map id (rows (fst (pgsql.step ev st))) =
   List.map id (rows st) ++ [next_id st] ∧
   next_id (fst (pgsql.step ev st)) = next_id st + 1).
Proof.
  unfold pgsql.step.
  destruct (pgsql.call ev) as [o w | d | n' | n' | n'].
  - destruct (CreateNotification_cases (pgsql.env ev) o w st)
      as [(_ & _ & ->) | [_ ->]]; simpl.
    + right. rewrite map_app. auto.
    + left. auto.
  - rewrite GetAvailableNotification_keeps_store. left. auto.
  - rewrite GetNotification_keeps_store. left. auto.
  - left. destruct (fault (pgsql.env ev)) as [m|] eqn:Hf.
    + rewrite (SetNotificationNotified_fault _ n' st m Hf). auto.
    + rewrite (SetNotificationNotified_healthy _ n' st Hf). simpl.
      rewrite map_id_update_where; [auto|reflexivity].
  - left. unfold pgsql.DeleteNotification, Exec, run, RowsAffected.
    destruct (fault (pgsql.env ev)); [auto|]. simpl.
    assert (Hids : List.map id (update_where (deletable n')
                      (set_deleted_at (Now (pgsql.env ev))) (rows st)) =
                   List.map id (rows st))
      by (apply map_id_update_where; reflexivity).
    destruct (rows_affected_fault (pgsql.env ev)); [simpl; auto|].
    destruct (count_where (deletable n') (rows st) <=? 0); simpl; auto.
Qed.

Lemma step_well_numbered (ev : pgsql.Event) (st : Store) :
  well_numbered st → well_numbered (fst (pgsql.step ev st)).
Proof.
  intros [Hnd Hlt].
  assert (Hlt' : ∀ x, In x (List.map id (rows st)) → x < next_id st).
  { intros x Hx. apply in_map_iff in Hx as [r [<- Hin]]. exact (Hlt r Hin). }
  destruct (step_numbering ev st) as [[Hids Hnext] | [Hids Hnext]];
    unfold well_numbered; rewrite Hids, Hnext.
  - split; [exact Hnd|]. intros r Hin.
    apply Hlt'. rewrite <- Hids. apply in_map. exact Hin.
  - split.
    + apply List.NoDup_app;
        [exact Hnd|apply List.NoDup_cons; [intros []|apply List.NoDup_nil]|].
      intros x Hx [<- | []]. pose proof (Hlt' _ Hx). lia.
    + intros r Hin.
      assert (Hx : In (id r) (List.map id (rows st) ++ [next_id st]))
        by (rewrite <- Hids; apply in_map; exact Hin).
      apply in_app_or in Hx as [Hx | [Hx | []]].
      * pose proof (Hlt' _ Hx). lia.
      * lia.
Qed.

(** X10.  Starting from the empty table, after any sequence of calls the
    names of the notifications are pairwise distinct, their identifiers
    are pairwise distinct, and every identifier was drawn from the
    sequence (it is below the next one). *)
Theorem store_stays_well_formed (evs : list pgsql.Event) :
  unique_names (fst (pgsql.steps evs Store_empty)) ∧
  well_numbered (fst (pgsql.steps evs Store_empty)).
Proof.
  split; [apply steps_unique_names|].
  assert (H : ∀ st, well_numbered st → well_numbered (fst (pgsql.steps evs st))).
  { induction evs as [|ev evs IH]; intros st Hw; simpl; [exact Hw|].
    pose proof (step_well_numbered ev st Hw) as Hw1.
    destruct (pgsql.step ev st) as [st1 r]. simpl in Hw1.
    specialize (IH st1 Hw1).
    destruct (pgsql.steps evs st1) as [st2 rs]. exact IH. }
  apply H. split; [apply List.NoDup_nil|intros r []].
Qed.

(** ** Further properties of the registries *)

Lemma Register_returns {ServiceValue : Type} (n : string)
    (od : option (@notifications.Driver ServiceValue))
    (drivers m : gmap string (@notifications.Driver ServiceValue)) :
  notifications.Register n od drivers = Returns m ↔
  ∃ d, od = Some d ∧ drivers !! n = None ∧ m = <[n := d]> drivers.
Proof.
  unfold notifications.Register. split.
  - destruct od as [d|]; [|discriminate].
    destruct (drivers !! n) eqn:Hl; [discriminate|].
    intros [= <-]. exists d. auto.
  - intros [d (-> & Hl & ->)]. rewrite Hl. reflexivity.
Qed.

Lemma Open_insert {ServiceValue : Type}
    (cfg : notifications.RegistrableComponentConfig) (n : string)
    (d : @notifications.Driver ServiceValue)
    (drivers : gmap string (@notifications.Driver ServiceValue)) :
  notifications.Open cfg (<[n := d]> drivers) =
  if String.eqb (notifications.Type_ cfg) n then Returns (d cfg)
  else notifications.Open cfg drivers.
Proof.
  unfold notifications.Open, notifications.Driver in *.
  destruct (String.eqb_spec (notifications.Type_ cfg) n) as [Heq | Hne].
  - rewrite Heq, lookup_insert_eq. reflexivity.
  - rewrite lookup_insert_ne by congruence. reflexivity.
Qed.

(** X11.  Register, then open.  [Register] returns exactly when the
    driver is not nil and the name is free; [Open] on the registry it
    returns builds the service with the driver just registered when the
    configured type is that name, and otherwise does what it did before
    the registration. *)
Theorem Register_then_Open {ServiceValue : Type}
    (cfg : notifications.RegistrableComponentConfig) (n : string)
    (od : option (@notifications.Driver ServiceValue))
    (drivers : gmap string (@notifications.Driver ServiceValue)) :
  ((∃ m, notifications.Register n od drivers = Returns m) ↔
   od ≠ None ∧ drivers !! n = None) ∧
  (∀ d m, notifications.Register n (Some d) drivers = Returns m →
          notifications.Open cfg m =
          if String.eqb (notifications.Type_ cfg) n then Returns (d cfg)
          else notifications.Open cfg drivers).
Proof.
  split.
  - split.
    + intros [m Hm]. apply Register_returns in Hm as [d (-> & Hl & _)].
      split; [discriminate|exact Hl].
    + intros [Hnn Hl]. destruct od as [d|]; [|contradiction].
      exists (<[n := d]> drivers). apply Register_returns. exists d. auto.
  - intros d m Hm. apply Register_returns in Hm as [d' (Hd & _ & ->)].
    injection Hd as <-. apply Open_insert.
Qed.

Lemma Register_then_Open_witness :
  notifications.Register "pgsql" (Some null_driver) ∅ =
  Returns (<["pgsql" := null_driver]> ∅) ∧
  notifications.Open
    {| notifications.Type_ := "pgsql"; notifications.Options := [] |}
    (<["pgsql" := null_driver]> ∅) =
  Returns (Some notifications.Null_value, None).
Proof.
  assert (Hreg : notifications.Register "pgsql" (Some null_driver) ∅ =
                 Returns (<["pgsql" := null_driver]> ∅))
    by (apply Register_fresh; apply lookup_empty).
  split; [exact Hreg|].
  exact (proj2 (Register_then_Open
                  {| notifications.Type_ := "pgsql"; notifications.Options := [] |}
                  "pgsql" (Some null_driver) ∅) null_driver _ Hreg).
Defined.

(** X12.  A series of registrations returns exactly when no driver is
    nil, the names are pairwise distinct and none of them was registered
    before; the registry it returns maps every listed name to its listed
    driver and keeps every driver that was registered before. *)
Theorem Register_each_returns {ServiceValue : Type}
    (l : list (string * option (@notifications.Driver ServiceValue)))
    (drivers : gmap string (@notifications.Driver ServiceValue)) :
  ((∃ m, Register_each l drivers = Returns m) ↔
   (∀ p, In p l → snd p ≠ None) ∧
   List.NoDup (List.map fst l) ∧
   (∀ p, In p l → drivers !! fst p = None)) ∧
  (∀ m, Register_each l drivers = Returns m →
        (∀ n d, In (n, Some d) l → m !! n = Some d) ∧
        (∀ k d0, drivers !! k = Some d0 → m !! k = Some d0)).
Proof.
  revert drivers. induction l as [|[n od] l IH]; intros drivers.
  - simpl. split.
    + split.
      * intros _. split; [intros p []|]. split; [apply List.NoDup_nil|intros p []].
      * intros _. eauto.
    + intros m [= <-]. split; [intros n d []|auto].
  - cbn [Register_each]. split.
    + split.
      * intros [m Hm].
        destruct (notifications.Register n od drivers) as [m1|msg] eqn:Hreg;
          [|discriminate].
        apply Register_returns in Hreg as [d (-> & Hl & ->)].
        destruct (proj1 (proj1 (IH (<[n := d]> drivers))) (ex_intro _ m Hm))
          as (Hnn & Hnd & Hfree).
        assert (Hnotin : ¬ In n (List.map fst l)).
        { intros Hin. apply in_map_iff in Hin as [p [Hp Hin]].
          pose proof (Hfree p Hin) as Hnone.
          rewrite Hp, lookup_insert_eq in Hnone. discriminate. }
        split; [intros p [<- | Hin]; [discriminate|exact (Hnn p Hin)]|].
        split; [apply List.NoDup_cons; assumption|].
        intros p [<- | Hin]; [exact Hl|].
        pose proof (Hfree p Hin) as Hnone.
        rewrite lookup_insert_ne in Hnone; [exact Hnone|].
        intros Heq. apply Hnotin. rewrite Heq. apply in_map. exact Hin.
      * intros (Hnn & Hnd & Hfree).
        destruct od as [d|];
          [|exfalso; exact (Hnn (n, None) (or_introl eq_refl) eq_refl)].
        rewrite (Register_fresh n d drivers (Hfree (n, Some d) (or_introl eq_refl))).
        apply List.NoDup_cons_iff in Hnd as [Hnotin Hnd].
        apply (proj1 (IH (<[n := d]> drivers))).
        split; [intros p Hin; apply Hnn; right; exact Hin|].
        split; [exact Hnd|].
        intros p Hin. rewrite lookup_insert_ne.
        -- apply Hfree. right. exact Hin.
        -- intros Heq. apply Hnotin. simpl. rewrite Heq. apply in_map. exact Hin.
    + intros m Hm.
      destruct (notifications.Register n od drivers) as [m1|msg] eqn:Hreg;
        [|discriminate].
      apply Register_returns in Hreg as [d (-> & Hl & ->)].
      destruct (proj2 (IH (<[n := d]> drivers)) m Hm) as [Hlisted Hkept].
      split.
      * intros n' d' [[= <- <-] | Hin]; [|exact (Hlisted n' d' Hin)].
        apply Hkept. apply lookup_insert_eq.
      * intros k d0 Hk. apply Hkept. rewrite lookup_insert_ne; [exact Hk|].
        intros <-. congruence.
Qed.

Lemma Register_each_returns_witness :
  ∃ m, Register_each [("pgsql", Some null_driver); ("memory", Some null_driver)]
         ∅ = Returns m ∧
       m !! "memory" = Some null_driver.
Proof.
  destruct (Register_each_returns
              [("pgsql", Some null_driver); ("memory", Some null_driver)] ∅)
    as [Hiff Hmap].
  destruct (proj2 Hiff) as [m Hm].
  { split; [intros p [<- | [<- | []]]; discriminate|].
    split.
    - simpl. apply List.NoDup_cons; [intros [H | []]; discriminate H|].
      apply List.NoDup_cons; [intros []|apply List.NoDup_nil].
    - intros p _. apply lookup_empty. }
  exists m. split; [exact Hm|].
  apply (proj1 (Hmap m Hm)). right. left. reflexivity.
Defined.

(** X13.  The registry of the vulnerabilities package.  [Open] returns
    an error and no service for a type that no driver was registered
    under; [Register] returns exactly when the driver is not nil and the
    name is free, and panics for a nil driver and for a name already
    registered; after a registration that returned, [Open] builds the
    service with that driver, handing it the configuration and the
    namespaces service, when the configured type is the name, and
    otherwise does what it did before. *)
Theorem vulnerabilities_registry {NamespacesService ServiceValue : Type}
    (cfg : notifications.RegistrableComponentConfig) (names : NamespacesService)
    (n : string)
    (od : option (@vulnerabilities.Driver NamespacesService ServiceValue))
    (drivers : gmap string (@vulnerabilities.Driver NamespacesService ServiceValue)) :
  (drivers !! notifications.Type_ cfg = None →
   vulnerabilities.Open cfg names drivers =
   Returns (None, Some (Errorf_unknown_Driver "vulnerabilities"
                          (notifications.Type_ cfg)))) ∧
  ((∃ m, vulnerabilities.Register n od drivers = Returns m) ↔
   od ≠ None ∧ drivers !! n = None) ∧
  (od = None →
   vulnerabilities.Register n od drivers =
   Panics "vulnerabilities: could not register nil Driver") ∧
  (od ≠ None → is_Some (drivers !! n) →
   vulnerabilities.Register n od drivers =
   Panics ("vulnerabilities: could not register duplicate Driver: " +:+ n)) ∧
  (∀ d m, vulnerabilities.Register n (Some d) drivers = Returns m →
          vulnerabilities.Open cfg names m =
          if String.eqb (notifications.Type_ cfg) n then Returns (d cfg names)
          else vulnerabilities.Open cfg names drivers).
Proof.
  split.
  { intros H. unfold vulnerabilities.Open, vulnerabilities.Driver in *.
    rewrite H. reflexivity. }
  split.
  { unfold vulnerabilities.Register. split.
    - intros [m Hm]. destruct od as [d|]; [|discriminate].
      destruct (drivers !! n); [discriminate|]. split; [discriminate|reflexivity].
    - intros [Hnn Hl]. destruct od as [d|]; [|contradiction].
      rewrite Hl. eauto. }
  split; [intros ->; reflexivity|].
  split.
  { intros Hnn [d0 Hl]. unfold vulnerabilities.Register.
    destruct od as [d|]; [|contradiction]. rewrite Hl. reflexivity. }
  intros d m Hm. unfold vulnerabilities.Register in Hm.
  destruct (drivers !! n) eqn:Hl; [discriminate|]. injection Hm as <-.
  unfold vulnerabilities.Open, vulnerabilities.Driver in *.
  destruct (String.eqb_spec (notifications.Type_ cfg) n) as [Heq | Hne].
  - rewrite Heq, lookup_insert_eq. reflexivity.
  - rewrite lookup_insert_ne by congruence. reflexivity.
Qed.

Lemma vulnerabilities_registry_witness :
  (∅ : gmap string (@vulnerabilities.Driver unit notifications.Null))
    !! "pgsql" = None ∧
  vulnerabilities.Open
    {| notifications.Type_ := "pgsql"; notifications.Options := [] |} tt
    (∅ : gmap string (@vulnerabilities.Driver unit notifications.Null)) =
  Returns (None, Some (Errorf_unknown_Driver "vulnerabilities" "pgsql")) ∧
  vulnerabilities.Register "pgsql" (Some vulnz_driver)
    (<["pgsql" := vulnz_driver]> ∅) =
  Panics "vulnerabilities: could not register duplicate Driver: pgsql".
Proof.
  assert (H0 : (∅ : gmap string (@vulnerabilities.Driver unit notifications.Null))
               !! "pgsql" = None) by apply lookup_empty.
  split; [exact H0|]. split.
  - exact (proj1 (vulnerabilities_registry
                    {| notifications.Type_ := "pgsql"; notifications.Options := [] |}
                    tt "pgsql" (Some vulnz_driver) ∅) H0).
  - destruct (vulnerabilities_registry
                {| notifications.Type_ := "pgsql"; notifications.Options := [] |}
                tt "pgsql" (Some vulnz_driver) (<["pgsql" := vulnz_driver]> ∅))
      as (_ & _ & _ & Hdup & _).
    apply Hdup; [discriminate|].
    exists vulnz_driver. apply lookup_insert_eq.
Defined.

(** ** The scenario of the package's test *)

(** Runs the engine on a table whose only name is [u]. *)
Ltac run_store Hu :=
  repeat progress
    (cbn; unfold deletable, has_name, available, count_where, limit_1;
     cbn; rewrite ?Hu).

(** X14.  The renotify scenario of [TestNotification], for every name,
    pair of references, clock readings and intervals: on the empty table
    [GetAvailableNotification] reports [NotFound]; once a notification is
    created it is handed out; once it is marked, a poll within the
    interval of the mark reports [NotFound] and a poll more than the
    interval after the mark hands the same name out again; after a
    second mark and a delete, which returns nil, the poll reports
    [NotFound]. *)
Theorem renotify_scenario (u : string) (old new : Model)
    (t0 t1 t2 t3 t4 t5 t6 t7 t8 : Time) (d0 d1 d2 d3 d4 : Duration) :
  negatable d2 → negatable d3 →
  t4 - t3 <= d2 → t5 - t3 > d3 →
  snd (pgsql.GetAvailableNotification (clock t0) d0 Store_empty) =
  (VulnerabilityNotification_zero, Some ErrNotFound) ∧
  ∃ s1 s2 s3 s4,
    pgsql.CreateNotification (env_at t1 u) old new Store_empty = (s1, None) ∧
    hands_out u (snd (pgsql.GetAvailableNotification (clock t2) d1 s1)) ∧
    pgsql.SetNotificationNotified (clock t3) u s1 = (s2, None) ∧
    snd (pgsql.GetAvailableNotification (clock t4) d2 s2) =
    (VulnerabilityNotification_zero, Some ErrNotFound) ∧
    hands_out u (snd (pgsql.GetAvailableNotification (clock t5) d3 s2)) ∧
    pgsql.SetNotificationNotified (clock t6) u s2 = (s3, None) ∧
    pgsql.DeleteNotification (clock t7) u s3 = (s4, None) ∧
    snd (pgsql.GetAvailableNotification (clock t8) d4 s4) =
    (VulnerabilityNotification_zero, Some ErrNotFound).
Proof.
  intros Hd2 Hd3 Hin Hout.
  assert (Hu : String.eqb u u = true) by (apply String.eqb_eq; reflexivity).
  split; [reflexivity|].
  eexists _, _, _, _.
  split; [reflexivity|].
  split; [split; reflexivity|].
  split.
  { rewrite SetNotificationNotified_healthy by reflexivity.
    run_store Hu. reflexivity. }
  split.
  { rewrite GetAvailableNotification_healthy by reflexivity.
    rewrite before_exact by exact Hd2. run_store Hu.
    destruct (Z.ltb_spec t3 (t4 - d2)); [lia|]. reflexivity. }
  split.
  { rewrite GetAvailableNotification_healthy by reflexivity.
    rewrite before_exact by exact Hd3. run_store Hu.
    destruct (Z.ltb_spec t3 (t5 - d3)); [|lia]. split; reflexivity. }
  split.
  { rewrite SetNotificationNotified_healthy by reflexivity.
    run_store Hu. reflexivity. }
  split.
  { rewrite DeleteNotification_healthy by (split; reflexivity).
    run_store Hu. reflexivity. }
  rewrite GetAvailableNotification_healthy by reflexivity.
  run_store Hu. reflexivity.
Qed.

Lemma renotify_scenario_witness :
  negatable 1000000000 ∧ negatable 20000000 ∧
  1001 - 1000 <= 1000000000 ∧ 50001001 - 1000 > 20000000 ∧
  ∃ s1 s2,
    pgsql.CreateNotification (env_at 10 "n1") {| ID := 0 |} {| ID := 7 |}
      Store_empty = (s1, None) ∧
    pgsql.SetNotificationNotified (clock 1000) "n1" s1 = (s2, None) ∧
    snd (pgsql.GetAvailableNotification (clock 1001) 1000000000 s2) =
    (VulnerabilityNotification_zero, Some ErrNotFound) ∧
    hands_out "n1" (snd (pgsql.GetAvailableNotification (clock 50001001)
                           20000000 s2)).
Proof.
  assert (H1 : negatable 1000000000) by (unfold negatable; lia).
  assert (H2 : negatable 20000000) by (unfold negatable; lia).
  assert (H3 : 1001 - 1000 <= 1000000000) by lia.
  assert (H4 : 50001001 - 1000 > 20000000) by lia.
  split; [exact H1|]. split; [exact H2|]. split; [exact H3|]. split; [exact H4|].
  destruct (renotify_scenario "n1" {| ID := 0 |} {| ID := 7 |}
              0 10 20 1000 1001 50001001 50001002 50001003 50001004
              1000000000 1000000000 1000000000 20000000 1000000
              H1 H2 H3 H4)
    as [_ [s1 [s2 [s3 [s4 (Hc & _ & Hs & Hin & Hout & _)]]]]].
  exists s1, s2. auto.
Defined.

(** ** What scanNotification returns with an error *)

Lemma Scan5_on_error (row : Row) (s s' : pgsql.scan_vars) (err : sql_error) :
  pgsql.Scan5 row s = (s', Some err) →
  Created (pgsql.var_notification s') = Created (pgsql.var_notification s) ∧
  Notified (pgsql.var_notification s') = Notified (pgsql.var_notification s) ∧
  Deleted (pgsql.var_notification s') = Deleted (pgsql.var_notification s) ∧
  OldVulnerability (pgsql.var_notification s') =
  OldVulnerability (pgsql.var_notification s) ∧
  NewVulnerability (pgsql.var_notification s') =
  NewVulnerability (pgsql.var_notification s) ∧
  (err = ErrNoRows → s' = s).
Proof.
  unfold pgsql.Scan5.
  destruct row as [e | [i|] [n|] c t d close | ? ? ? ? ? ? ? ?];
    try (intros [= <- <-]; repeat split; auto; discriminate).
  destruct close as [msg|]; simpl; [|discriminate].
  intros [= <- <-]. repeat split; auto; discriminate.
Qed.

Lemma Scan7_on_error (row : Row) (s s' : pgsql.scan_vars) (err : sql_error) :
  pgsql.Scan7 row s = (s', Some err) →
  Created (pgsql.var_notification s') = Created (pgsql.var_notification s) ∧
  Notified (pgsql.var_notification s') = Notified (pgsql.var_notification s) ∧
  Deleted (pgsql.var_notification s') = Deleted (pgsql.var_notification s) ∧
  OldVulnerability (pgsql.var_notification s') =
  OldVulnerability (pgsql.var_notification s) ∧
  NewVulnerability (pgsql.var_notification s') =
  NewVulnerability (pgsql.var_notification s) ∧
  (err = ErrNoRows → s' = s).
Proof.
  unfold pgsql.Scan7.
  destruct row as [e | ? ? ? ? ? ? | [i|] [n|] c t d o w close];
    try (intros [= <- <-]; repeat split; auto; discriminate).
  destruct close as [msg|]; simpl; [|discriminate].
  intros [= <- <-]. repeat split; auto; discriminate.
Qed.

(** X15.  What [scanNotification] returns with an error.  For every
    row and either value of [hasVulns], the notification returned next
    to an error has [Created], [Notified] and [Deleted] at the zero time
    and both references nil, since they are filled in only after the
    error check, and it is the zero value when the error is
    [sql.ErrNoRows].  It is not the zero value in general: [ID] and
    [Name] are destinations of [Scan], so when closing the rows fails
    after the scan the notification returned with the error carries the
    row's [ID] and [Name], and when the name column is NULL it carries
    the row's [ID]. *)
Theorem scanNotification_on_error (row : Row) (hasVulns : bool)
    (v : VulnerabilityNotification) (err : sql_error) :
  pgsql.scanNotification row hasVulns = (v, Some err) →
  (Created v = Time_zero ∧ Notified v = Time_zero ∧ Deleted v = Time_zero ∧
   OldVulnerability v = None ∧ NewVulnerability v = None ∧
   (err = ErrNoRows → v = VulnerabilityNotification_zero)) ∧
  (∀ i n c t d o w msg,
     row = Row5 (Some i) (Some n) c t d (Some msg) ∧ hasVulns = false ∨
     row = Row7 (Some i) (Some n) c t d o w (Some msg) ∧ hasVulns = true →
     err = driver_error msg ∧
     VulnerabilityNotification_Model v = {| ID := i |} ∧ Name v = n) ∧
  (∀ i c t d o w close,
     row = Row5 (Some i) None c t d close ∧ hasVulns = false ∨
     row = Row7 (Some i) None c t d o w close ∧ hasVulns = true →
     VulnerabilityNotification_Model v = {| ID := i |} ∧ Name v = EmptyString).
Proof.
  intros Hscan. split; [|split].
  - unfold pgsql.scanNotification in Hscan.
    destruct hasVulns.
    + destruct (pgsql.Scan7 row _) as [s' [e|]] eqn:Hs; [|discriminate].
      injection Hscan as <- <-.
      destruct (Scan7_on_error _ _ _ _ Hs) as (Hc & Hn & Hd & Ho & Hw & Hz).
      simpl in *. repeat split; auto.
      intros He. rewrite (Hz He). reflexivity.
    + destruct (pgsql.Scan5 row _) as [s' [e|]] eqn:Hs; [|discriminate].
      injection Hscan as <- <-.
      destruct (Scan5_on_error _ _ _ _ Hs) as (Hc & Hn & Hd & Ho & Hw & Hz).
      simpl in *. repeat split; auto.
      intros He. rewrite (Hz He). reflexivity.
  - intros i n c t d o w msg [[-> ->] | [-> ->]];
      injection Hscan as <- <-; repeat split.
  - intros i c t d o w close [[-> ->] | [-> ->]];
      injection Hscan as <- <-; repeat split.
Qed.

Lemma scanNotification_on_error_witness :
  pgsql.scanNotification
    (Row5 (Some 1) (Some "a") (Some 100) (Some 110) None (Some "closed"))
    false =
  ({| VulnerabilityNotification_Model := {| ID := 1 |};
      Name := "a"; Created := 0; Notified := 0; Deleted := 0;
      OldVulnerability := None; NewVulnerability := None |},
   Some (driver_error "closed")) ∧
  Notified (fst (pgsql.scanNotification
                   (Row5 (Some 1) (Some "a") (Some 100) (Some 110) None
                         (Some "closed")) false)) = Time_zero.
Proof.
  split; [reflexivity|].
  destruct (scanNotification_on_error
              (Row5 (Some 1) (Some "a") (Some 100) (Some 110) None
                    (Some "closed")) false
              {| VulnerabilityNotification_Model := {| ID := 1 |};
                 Name := "a"; Created := 0; Notified := 0; Deleted := 0;
                 OldVulnerability := None; NewVulnerability := None |}
              (driver_error "closed") eq_refl) as ((_ & Hn & _) & _).
  exact Hn.
Defined.
